(** * QuantumLibraries / qdk-chemistry: geometry model, XYZ codec and
      solver input decks

    A shallow embedding of

      - [qdk_chemistry/geometry/geometry.py]  ([Element], [Geometry],
        [XYZ_PATTERN], [from_xyz], [to_xyz]),
      - [qdk_chemistry/geometry/xyz.py]       ([element_to_xyz],
        [coordinates_to_xyz]),
      - [qdk_chemistry/solvers/nwchem.py]     ([NW_CHEM_TEMPLATE],
        [create_input_deck]),
      - [qdk_chemistry/solvers/openmolcas.py] ([format_geometry]),

    followed by the properties of the specification that concern them.

    Python text is modelled by [string] restricted to ASCII; Python [int] by
    [Z]; Python [float] by an explicit IEEE-754 binary64 value with the
    correctly rounded conversions from and to decimal text that CPython
    implements; raising an exception by the [Raise] constructor of [result]. *)

From Stdlib Require Import ZArith List String Ascii Bool Lia DecimalString.
Import ListNotations.

Local Open Scope string_scope.
Local Open Scope Z_scope.

(** ** Exceptions *)

Inductive exn : Type :=
| ValueError
| KeyError
| TypeError
| AttributeError (attr : string).

Inductive result (A : Type) : Type :=
| Ok (a : A)
| Raise (e : exn).
Arguments Ok {A} a.
Arguments Raise {A} e.

Definition bind {A B : Type} (r : result A) (k : A -> result B) : result B :=
  match r with
  | Ok a => k a
  | Raise e => Raise e
  end.

Notation "x <- r ;; k" := (bind r (fun x => k))
  (at level 61, r at next level, right associativity).

Fixpoint mapM {A B : Type} (f : A -> result B) (l : list A) : result (list B) :=
  match l with
  | [] => Ok []
  | a :: l' => b <- f a ;; bs <- mapM f l' ;; Ok (b :: bs)
  end.

(** ** Text helpers *)

Definition chr (c : ascii) : string := String c EmptyString.

Definition newline : ascii := Ascii.ascii_of_nat 10.
Definition nl : string := chr newline.

(** [sep.join(parts)] *)
Definition join (sep : string) (parts : list string) : string :=
  String.concat sep parts.

Fixpoint repeat_char (c : ascii) (n : nat) : string :=
  match n with
  | O => ""
  | S n' => String c (repeat_char c n')
  end.

Definition in_range (lo hi c : ascii) : bool :=
  ((nat_of_ascii lo <=? nat_of_ascii c)%nat && (nat_of_ascii c <=? nat_of_ascii hi)%nat)%bool.

Definition is_digit (c : ascii) : bool := in_range "0" "9" c.

(** ** Python [int] rendering: [str(n)] *)

Definition str_int (n : Z) : string := NilZero.string_of_int (Z.to_int n).

(** ** Python [float]: IEEE-754 binary64

    [FFinite neg m e] denotes [(-1)^neg * m * 2^e]; a value produced by the
    functions below is canonical: [2^52 <= m < 2^53] with
    [-1074 <= e <= 971], or [m < 2^52] with [e = -1074]. *)

Inductive float : Type :=
| FZero (neg : bool)
| FInf (neg : bool)
| FNaN
| FFinite (neg : bool) (m : positive) (e : Z).

Definition float_eqb (x y : float) : bool :=
  match x, y with
  | FZero a, FZero b => Bool.eqb a b
  | FInf a, FInf b => Bool.eqb a b
  | FNaN, FNaN => true
  | FFinite a m e, FFinite b m' e' => Bool.eqb a b && Pos.eqb m m' && Z.eqb e e'
  | _, _ => false
  end.

(** Round the positive rational [p / q] to the nearest binary64, ties to
    even; overflow gives an infinity, underflow a zero. *)
Definition round_ratio (neg : bool) (p q : positive) : float :=
  let e0 := Z.log2 (Zpos p) - Z.log2 (Zpos q) - 52 in
  let m0 := if 0 <=? e0 then Zpos p / (Zpos q * 2 ^ e0)
            else (Zpos p * 2 ^ (- e0)) / Zpos q in
  let e1 := if m0 <? 2 ^ 52 then e0 - 1 else e0 in
  let e := Z.max e1 (-1074) in
  let num := if 0 <=? e then Zpos p else Zpos p * 2 ^ (- e) in
  let den := if 0 <=? e then Zpos q * 2 ^ e else Zpos q in
  let m := num / den in
  let r := num mod den in
  let m' := match 2 * r ?= den with
            | Gt => m + 1
            | Eq => if Z.odd m then m + 1 else m
            | Lt => m
            end in
  let '(m'', e') := if m' =? 2 ^ 53 then (2 ^ 52, e + 1) else (m', e) in
  if 971 <? e' then FInf neg
  else match m'' with
       | Zpos mm => FFinite neg mm e'
       | _ => FZero neg
       end.

(** The binary64 nearest to [d * 10^x], for an integer [d >= 0]. *)
Definition float_of_decimal (neg : bool) (d x : Z) : float :=
  match d with
  | Zpos p =>
      if 0 <=? x then round_ratio neg (p * Z.to_pos (10 ^ x)) 1
      else round_ratio neg p (Z.to_pos (10 ^ (- x)))
  | _ => FZero neg
  end.

(** *** [float(s)] for a string [s]

    The accepted literals are an optional sign followed by [inf],
    [infinity], [nan], or by decimal digits with an optional point and an
    optional exponent; anything else raises [ValueError].  (Surrounding
    white space, digit-group underscores and the upper-case spellings, which
    CPython also accepts, are left out of the model; no string matched by
    [FLOAT_PATTERN] contains them.) *)

Definition digit_val (c : ascii) : Z := Z.of_nat (nat_of_ascii c) - 48.

(** Reads a maximal run of decimal digits: the value accumulated onto [acc],
    the number of digits read added to [cnt], and the unread text. *)
Fixpoint read_digits (acc cnt : Z) (s : string) : Z * Z * string :=
  match s with
  | String c s' =>
      if is_digit c then read_digits (10 * acc + digit_val c) (cnt + 1) s'
      else (acc, cnt, s)
  | EmptyString => (acc, cnt, s)
  end.

Definition read_sign (s : string) : bool * string :=
  match s with
  | String "-" t => (true, t)
  | String "+" t => (false, t)
  | _ => (false, s)
  end.

Definition read_exponent (s : string) : result Z :=
  let '(neg, s1) := read_sign s in
  let '(v, n, rest) := read_digits 0 0 s1 in
  if (n =? 0) || negb (rest =? "")%string then Raise ValueError
  else Ok (if neg then - v else v).

(** The literal after its sign. *)
Definition float_of_unsigned (neg : bool) (s1 : string) : result float :=
  if ((s1 =? "inf") || (s1 =? "infinity"))%string then Ok (FInf neg)
  else if (s1 =? "nan")%string then Ok FNaN
  else
    let '(ip, ni, s2) := read_digits 0 0 s1 in
    let '(d, nf, s3) := match s2 with
                        | String "." t => read_digits ip 0 t
                        | _ => (ip, 0, s2)
                        end in
    if ni + nf =? 0 then Raise ValueError
    else match s3 with
         | EmptyString => Ok (float_of_decimal neg d (- nf))
         | String c t =>
             if (Ascii.eqb c "e" || Ascii.eqb c "E")%bool
             then ex <- read_exponent t ;; Ok (float_of_decimal neg d (ex - nf))
             else Raise ValueError
         end.

Definition float_of_string (s : string) : result float :=
  let '(neg, s1) := read_sign s in float_of_unsigned neg s1.

(** *** [repr(x)] / [str(x)] / [f"{x}"] for a float [x]

    CPython prints the shortest decimal digit string that reads back as [x]
    (the closest to [x] among the shortest), in fixed notation when the
    decimal point position [decpt] satisfies [-4 < decpt <= 16] and in
    exponent notation otherwise. *)

(** Compares [P / Q] with [10^k]. *)
Definition cmp_pow10 (P Q k : Z) : comparison :=
  if 0 <=? k then P ?= Q * 10 ^ k else P * 10 ^ (- k) ?= Q.

Fixpoint adjust_log10 (fuel : nat) (P Q k : Z) : Z :=
  match fuel with
  | O => k
  | S f =>
      match cmp_pow10 P Q k with
      | Lt => adjust_log10 f P Q (k - 1)
      | _ => match cmp_pow10 P Q (k + 1) with
             | Lt => k
             | _ => adjust_log10 f P Q (k + 1)
             end
      end
  end.

(** [floor (log10 (P / Q))] for [P, Q > 0]. *)
Definition floor_log10 (P Q : Z) : Z :=
  adjust_log10 8 P Q (((Z.log2 P - Z.log2 Q) * 30103) / 100000).

(** [floor ((P / Q) / 10^x)] *)
Definition floor_scaled (P Q x : Z) : Z :=
  if 0 <=? x then P / (Q * 10 ^ x) else (P * 10 ^ (- x)) / Q.

(** [(P / Q) / 10^x] rounded to the nearest integer, ties to even. *)
Definition nearest_scaled (P Q x : Z) : Z :=
  let lo := floor_scaled P Q x in
  let c := if 0 <=? x then 2 * P ?= (2 * lo + 1) * (Q * 10 ^ x)
           else 2 * (P * 10 ^ (- x)) ?= (2 * lo + 1) * Q in
  match c with
  | Lt => lo
  | Gt => lo + 1
  | Eq => if Z.even lo then lo else lo + 1
  end.

Definition ratio_of (m : positive) (e : Z) : Z * Z :=
  if 0 <=? e then (Zpos m * 2 ^ e, 1) else (Zpos m, 2 ^ (- e)).

Definition reads_back (neg : bool) (m : positive) (e d x : Z) : bool :=
  float_eqb (float_of_decimal neg d x) (FFinite neg m e).

(** An [n]-digit decimal [d * 10^x] that reads back as the float, the
    nearest one first. *)
Definition candidate (neg : bool) (m : positive) (e k n : Z) : option (Z * Z) :=
  let '(P, Q) := ratio_of m e in
  let x := k - n + 1 in
  let lo := floor_scaled P Q x in
  let near := nearest_scaled P Q x in
  let far := if near =? lo then lo + 1 else lo in
  if reads_back neg m e near x then Some (near, x)
  else if reads_back neg m e far x then Some (far, x)
  else None.

Fixpoint shortest (fuel : nat) (neg : bool) (m : positive) (e k n : Z) : Z * Z :=
  match candidate neg m e k n with
  | Some r => r
  | None =>
      match fuel with
      | O => let '(P, Q) := ratio_of m e in (nearest_scaled P Q (k - n + 1), k - n + 1)
      | S f => shortest f neg m e k (n + 1)
      end
  end.

Fixpoint strip_zeros (fuel : nat) (d x : Z) : Z * Z :=
  match fuel with
  | O => (d, x)
  | S f => if (d mod 10 =? 0) && negb (d =? 0) then strip_zeros f (d / 10) (x + 1) else (d, x)
  end.

Definition pad2 (s : string) : string :=
  if (String.length s <? 2)%nat then "0" ++ s else s.

Definition exp_suffix (ex : Z) : string :=
  "e" ++ (if ex <? 0 then "-" else "+") ++ pad2 (str_int (Z.abs ex)).

Definition zeros (n : Z) : string := repeat_char "0" (Z.to_nat n).

(** Lays out the digit string [ds], denoting [0.ds * 10^decpt], as [repr]
    does. *)
Definition repr_digits (ds : string) (decpt : Z) : string :=
  let n := Z.of_nat (String.length ds) in
  if (decpt <? -3) || (16 <? decpt) then
    match ds with
    | String c rest =>
        chr c ++ (if (rest =? "")%string then "" else "." ++ rest) ++ exp_suffix (decpt - 1)
    | EmptyString => ""
    end
  else if decpt <=? 0 then "0." ++ zeros (- decpt) ++ ds
  else if n <=? decpt then ds ++ zeros (decpt - n) ++ ".0"
  else substring 0 (Z.to_nat decpt) ds ++ "." ++
       substring (Z.to_nat decpt) (Z.to_nat (n - decpt)) ds.

Definition float_repr (x : float) : string :=
  match x with
  | FNaN => "nan"
  | FInf false => "inf"
  | FInf true => "-inf"
  | FZero false => "0.0"
  | FZero true => "-0.0"
  | FFinite neg m e =>
      let '(P, Q) := ratio_of m e in
      let k := floor_log10 P Q in
      let '(d0, x0) := shortest 16 neg m e k 1 in
      let '(d, x) := strip_zeros 20 d0 x0 in
      let ds := str_int d in
      (if neg then "-" else "") ++ repr_digits ds (Z.of_nat (String.length ds) + x)
  end.

(** *** [format(x, ".1e")]: two significant digits, exponent notation *)

Definition float_format_e1 (x : float) : string :=
  match x with
  | FNaN => "nan"
  | FInf false => "inf"
  | FInf true => "-inf"
  | FZero false => "0.0e+00"
  | FZero true => "-0.0e+00"
  | FFinite neg m e =>
      let '(P, Q) := ratio_of m e in
      let k := floor_log10 P Q in
      let d0 := nearest_scaled P Q (k - 1) in
      let '(d, k') := if d0 =? 100 then (10, k + 1) else (d0, k) in
      (if neg then "-" else "") ++
      str_int (d / 10) ++ "." ++ str_int (d mod 10) ++ exp_suffix k'
  end.

(** ** Regular expressions: the fragment of [re] used by [XYZ_PATTERN]

    A backtracking matcher in the list-of-successes style: [matches r s]
    lists, in the order in which Python's engine would try them, the ways in
    which [r] matches a prefix of [s]; each is the text consumed, the text of
    the capture groups in order of their opening parenthesis, and the text
    left.  Quantifiers are greedy and apply to character classes only. *)

Module Re.

(** A character class is a list of inclusive ranges. *)
Definition cls : Type := list (ascii * ascii).

Definition in_cls (k : cls) (c : ascii) : bool :=
  existsb (fun r => in_range (fst r) (snd r) c) k.

Inductive regex : Type :=
| Lit (c : ascii)
| Class (k : cls)
| Opt (k : cls)
| Star (k : cls)
| Plus (k : cls)
| Cat (r1 r2 : regex)
| Group (r : regex).

Definition success : Type := string * list string * string.

(** [k*]: the longest run first, then each shorter one. *)
Fixpoint star (k : cls) (s : string) : list (string * string) :=
  match s with
  | String c s' =>
      if in_cls k c
      then (map (fun ur => (String c (fst ur), snd ur)) (star k s') ++ [("", s)])%list
      else [("", s)]
  | EmptyString => [("", s)]
  end.

Fixpoint matches (r : regex) (s : string) : list success :=
  match r with
  | Lit c =>
      match s with
      | String d s' => if Ascii.eqb c d then [(chr d, [], s')] else []
      | EmptyString => []
      end
  | Class k =>
      match s with
      | String d s' => if in_cls k d then [(chr d, [], s')] else []
      | EmptyString => []
      end
  | Opt k =>
      match s with
      | String d s' => if in_cls k d then [(chr d, [], s'); ("", [], s)] else [("", [], s)]
      | EmptyString => [("", [], s)]
      end
  | Star k => map (fun ur => (fst ur, [], snd ur)) (star k s)
  | Plus k =>
      match s with
      | String d s' =>
          if in_cls k d
          then map (fun ur => (String d (fst ur), [], snd ur)) (star k s')
          else []
      | EmptyString => []
      end
  | Cat r1 r2 =>
      flat_map
        (fun a : success =>
           let '(u1, g1, s1) := a in
           map (fun b : success => let '(u2, g2, s2) := b in (u1 ++ u2, (g1 ++ g2)%list, s2))
               (matches r2 s1))
        (matches r1 s)
  | Group r1 =>
      map (fun a : success => let '(u, g, s') := a in (u, u :: g, s')) (matches r1 s)
  end.

(** The match the engine reports at the start of [s]: the first success. *)
Definition match_at (r : regex) (s : string) : option success :=
  hd_error (matches r s).

(** [re.findall(r, s)] for a pattern with several groups: the group tuples
    of the successive non-overlapping matches, scanning from the left.
    [skip] counts the characters still covered by the previous match. *)
Fixpoint findall_from (r : regex) (skip : nat) (s : string) {struct s}
  : list (list string) :=
  match skip with
  | S k =>
      match s with
      | String _ s' => findall_from r k s'
      | EmptyString => []
      end
  | O =>
      match match_at r s with
      | Some (u, g, _) =>
          g :: match s with
               | String _ s' => findall_from r (String.length u - 1)%nat s'
               | EmptyString => []
               end
      | None =>
          match s with
          | String _ s' => findall_from r 0%nat s'
          | EmptyString => []
          end
      end
  end.

Definition findall (r : regex) (s : string) : list (list string) :=
  findall_from r 0%nat s.

(** [\w] on ASCII text. *)
Definition word : cls := [("a", "z"); ("A", "Z"); ("0", "9"); ("_", "_")]%char.
Definition digit : cls := [("0", "9")]%char.

End Re.

(** ** [geometry/geometry.py] *)

(** [FLOAT_PATTERN = "([+-]?[0-9]*[.][0-9]+)"] *)
Definition FLOAT_PATTERN : Re.regex :=
  Re.Group
    (Re.Cat (Re.Opt [("+", "+"); ("-", "-")]%char)
       (Re.Cat (Re.Star Re.digit)
          (Re.Cat (Re.Class [(".", ".")]%char)
             (Re.Plus Re.digit)))).

(** [XYZ_PATTERN = f"(\w) {FLOAT_PATTERN} {FLOAT_PATTERN} {FLOAT_PATTERN}"] *)
Definition XYZ_PATTERN : Re.regex :=
  Re.Cat (Re.Group (Re.Class Re.word))
    (Re.Cat (Re.Lit " ")
       (Re.Cat FLOAT_PATTERN
          (Re.Cat (Re.Lit " ")
             (Re.Cat FLOAT_PATTERN
                (Re.Cat (Re.Lit " ") FLOAT_PATTERN))))).

Record Element : Type := mkElement {
  name : string;
  x : float;
  y : float;
  z : float
}.

(** [Element.from_tuple]: unpacks four items and converts the last three
    with [float]; as [from_xyz] calls it, the items are the strings captured
    by the pattern. *)
Definition from_tuple (value : list string) : result Element :=
  match value with
  | [n; sx; sy; sz] =>
      fx <- float_of_string sx ;;
      fy <- float_of_string sy ;;
      fz <- float_of_string sz ;;
      Ok (mkElement n fx fy fz)
  | _ => Raise ValueError
  end.

(** [Geometry]: a list of elements carrying a [charge] attribute, [None]
    until set. *)
Record Geometry : Type := mkGeometry {
  atoms : list Element;
  charge : option Z
}.

Definition set_charge (c : option Z) (g : Geometry) : Geometry :=
  mkGeometry (atoms g) c.

Definition coordinates (g : Geometry) : list (string * float * float * float) :=
  map (fun e => (name e, x e, y e, z e)) (atoms g).

Definition from_xyz (xyz : string) : result Geometry :=
  els <- mapM from_tuple (Re.findall XYZ_PATTERN xyz) ;;
  Ok (mkGeometry els None).

Section FromMol.

(** The RDKit molecule type, [mol_to_coordinates] of
    [qdk_chemistry.geometry.rdkit_convert] and [Chem.GetFormalCharge], which
    [from_mol] only calls; either may raise. *)
Variable Mol : Type.
Variable mol_to_coordinates : Mol -> Z -> result (list (string * float * float * float)).
Variable GetFormalCharge : Mol -> result Z.

Definition element_of_tuple (t : string * float * float * float) : Element :=
  let '(n, x, y, z) := t in mkElement n x y z.

(** [Geometry.from_mol(mol, num_confs)]: the coordinates are computed first,
    then the charge. *)
Definition from_mol (mol : Mol) (num_confs : Z) : result Geometry :=
  coords <- mol_to_coordinates mol num_confs ;;
  q <- GetFormalCharge mol ;;
  Ok (mkGeometry (map element_of_tuple coords) (Some q)).

End FromMol.

Arguments from_mol {Mol}.

(** ** [geometry/xyz.py] *)

Definition element_to_xyz (n : string) (x y z : float) : string :=
  n ++ " " ++ float_repr x ++ " " ++ float_repr y ++ " " ++ float_repr z.

(** Python's [charge != 0] and [f"{charge}"] on an [int] or [None]. *)
Definition ne_zero (c : option Z) : bool :=
  match c with
  | Some n => negb (n =? 0)
  | None => true
  end.

Definition str_charge (c : option Z) : string :=
  match c with
  | Some n => str_int n
  | None => "None"
  end.

Definition charge_block (c : option Z) : list string :=
  ["$set"; "chrg " ++ str_charge c; "$end"].

Definition atom_line (el : string * float * float * float) : string :=
  let '(n, x, y, z) := el in element_to_xyz n x y z ++ " ".

(** The list [result] that [coordinates_to_xyz] builds before joining. *)
Definition xyz_lines (number_of_atoms : nat) (c : option Z)
    (coords : list (string * float * float * float)) : list string :=
  ([str_int (Z.of_nat number_of_atoms); "title"]
     ++ map atom_line coords
     ++ (if ne_zero c then charge_block c else []))%list.

Definition coordinates_to_xyz (number_of_atoms : nat) (c : option Z)
    (coords : list (string * float * float * float)) : string :=
  join nl (xyz_lines number_of_atoms c coords).

Definition to_xyz (g : Geometry) : string :=
  coordinates_to_xyz (List.length (atoms g)) (charge g) (coordinates g).

(** ** [str.format] with keyword arguments

    Replacement fields are [{name}] and [{name:spec}]; the only format
    specification the templates use is [.1e]. *)

Inductive value : Type :=
| VStr (s : string)
| VInt (n : Z)
| VFloat (x : float).

Definition str_value (v : value) : string :=
  match v with
  | VStr s => s
  | VInt n => str_int n
  | VFloat x => float_repr x
  end.

Fixpoint lookup (key : string) (kwargs : list (string * value)) : result value :=
  match kwargs with
  | [] => Raise KeyError
  | (k, v) :: rest => if (k =? key)%string then Ok v else lookup key rest
  end.

(** Splits a replacement field at its first colon. *)
Fixpoint split_field (f : string) : string * option string :=
  match f with
  | EmptyString => ("", None)
  | String ":" spec => ("", Some spec)
  | String c f' => let '(n, spec) := split_field f' in (String c n, spec)
  end.

Definition format_value (v : value) (spec : option string) : result string :=
  match spec with
  | None => Ok (str_value v)
  | Some sp =>
      if (sp =? ".1e")%string then
        match v with
        | VFloat x => Ok (float_format_e1 x)
        | VInt n => Ok (float_format_e1 (float_of_decimal (n <? 0) (Z.abs n) 0))
        | VStr _ => Raise ValueError
        end
      else if (sp =? "")%string then Ok (str_value v)
      else Raise ValueError
  end.

Definition render_field (f : string) (kwargs : list (string * value)) : result string :=
  let '(n, spec) := split_field f in
  v <- lookup n kwargs ;;
  format_value v spec.

(** [field] is [Some f] while scanning inside braces, [f] being the text of
    the field read so far. *)
Fixpoint format_from (tpl : string) (field : option string)
    (kwargs : list (string * value)) : result string :=
  match tpl with
  | EmptyString =>
      match field with
      | None => Ok ""
      | Some _ => Raise ValueError
      end
  | String c tpl' =>
      match field with
      | None =>
          if Ascii.eqb c "{" then format_from tpl' (Some "") kwargs
          else if Ascii.eqb c "}" then Raise ValueError
          else rest <- format_from tpl' None kwargs ;; Ok (String c rest)
      | Some f =>
          if Ascii.eqb c "}" then
            v <- render_field f kwargs ;;
            rest <- format_from tpl' None kwargs ;;
            Ok (v ++ rest)
          else format_from tpl' (Some (f ++ chr c)) kwargs
      end
  end.

Definition format (tpl : string) (kwargs : list (string * value)) : result string :=
  format_from tpl None kwargs.

(** ** [solvers/nwchem.py] *)

Definition NW_CHEM_TEMPLATE : string := "
start {name}

echo
{memory}

geometry units {geometry_units}
symmetry c1
{geometry}
end

basis
* library {basis}
end

charge {charge}

scf
thresh {scf_thresh:.1e}
tol2e {scf_tol2e}
{rhf}
{spin}
{nopen}
end

tce
{method}
tilesize 1
2eorb
2emet 13
nroots {num_tce_root}
thresh {tce_thresh:.1e}
end

set tce:print_integrals T
set tce:qorb {num_orb}
set tce:qela {num_el_a}
set tce:qelb {num_el_b}

task tce {driver}
".

(** [geometry_from_xyz]: the matched atoms re-joined, one per line. *)
Definition geometry_from_xyz (xyz : string) : string :=
  join nl (map (join " ") (Re.findall XYZ_PATTERN xyz)).

Section NWChem.

(** The RDKit molecule type and the electron counter of
    [qdk_chemistry.convert], which the deck generator only calls. *)
Variable Mol : Type.
Variable num_electrons : Mol -> Z.

(** The parameters of [create_input_deck]. *)
Record deck_params : Type := mkParams {
  mol_name : string;
  geometry : string;
  num_active_orbitals : Z;
  memory : string;
  geometry_units : string;
  basis : string;
  deck_charge : Z;
  scf_thresh : float;
  scf_tol2e : float;
  rhf : string;
  spin : string;
  nopen : option Z;
  method : string;
  num_tce_root : Z;
  tce_thresh : float;
  driver : string;
  mol : option Mol;
  num_active_el : option Z
}.

(** The call [create_input_deck(mol_name, geometry, num_active_orbitals)]
    with every optional parameter at its default: [1.0e-10] and [1.0e-6] are
    the binary64 values nearest to those literals. *)
Definition default_params (mol_name geometry : string) (num_active_orbitals : Z)
  : deck_params :=
  {| mol_name := mol_name;
     geometry := geometry;
     num_active_orbitals := num_active_orbitals;
     memory := "memory stack 1000 mb heap 100 mb global 1000 mb noverify";
     geometry_units := "au";
     basis := "sto-3g";
     deck_charge := 0;
     scf_thresh := float_of_decimal false 1 (-10);
     scf_tol2e := float_of_decimal false 1 (-10);
     rhf := "rhf";
     spin := "singlet";
     nopen := None;
     method := "ccsd";
     num_tce_root := 5;
     tce_thresh := float_of_decimal false 1 (-6);
     driver := "energy";
     mol := None;
     num_active_el := None |}.

Definition ignoring_mol_warning : string :=
  "Ignoring mol and using specified number of active electrons (num_active_el) instead.".

(** What a call leaves behind: the warnings issued through [warnings.warn],
    in order, and the returned text or the exception raised. *)
Record outcome : Type := mkOutcome {
  warnings : list string;
  returned : result string
}.

(** The [if]/[elif]/[else] that settles the active-electron count. *)
Definition resolve_active_el (p : deck_params) : list string * result Z :=
  match mol p, num_active_el p with
  | Some m, None => ([], Ok (num_electrons m))
  | None, None => ([], Raise ValueError)
  | _, Some n => ([ignoring_mol_warning], Ok n)
  end.

Definition deck_kwargs (p : deck_params) (active_el : Z) : list (string * value) :=
  let nopen_str := match nopen p with
                   | Some n => "nopen " ++ str_int n
                   | None => ""
                   end in
  [ ("name", VStr (mol_name p ++ "_test"));
    ("memory", VStr (memory p));
    ("geometry_units", VStr (geometry_units p));
    ("geometry", VStr (geometry p));
    ("basis", VStr (basis p));
    ("charge", VInt (deck_charge p));
    ("scf_thresh", VFloat (scf_thresh p));
    ("scf_tol2e", VFloat (scf_tol2e p));
    ("rhf", VStr (rhf p));
    ("spin", VStr (spin p));
    ("nopen", VStr nopen_str);
    ("method", VStr (method p));
    ("num_tce_root", VInt (num_tce_root p));
    ("tce_thresh", VFloat (tce_thresh p));
    ("num_orb", VInt (num_active_orbitals p));
    ("num_el_a", VInt (active_el / 2));
    ("num_el_b", VInt (active_el / 2));
    ("driver", VStr (driver p)) ].

Definition create_input_deck (p : deck_params) : outcome :=
  let '(w, el) := resolve_active_el p in
  mkOutcome w (active_el <- el ;; format NW_CHEM_TEMPLATE (deck_kwargs p active_el)).

End NWChem.

Arguments mkParams {Mol}.
Arguments default_params {Mol}.
Arguments create_input_deck {Mol}.
Arguments resolve_active_el {Mol}.
Arguments deck_kwargs {Mol}.

(** ** [solvers/openmolcas.py] *)

(** What the class [Element] defines: the four dataclass fields and the
    class method [from_tuple]. *)
Definition Element_fields : list string := ["name"; "x"; "y"; "z"].
Definition Element_methods : list string := ["from_tuple"].

(** [el.attr()] on an [Element]: looks the attribute up and calls it without
    arguments.  A field holds a [str] or a [float], which is not callable,
    and [from_tuple] lacks its argument: both are a [TypeError]; any other
    name is an [AttributeError]. *)
Definition call_method (el : Element) (attr : string) : result string :=
  if existsb (String.eqb attr) Element_fields then Raise TypeError
  else if existsb (String.eqb attr) Element_methods then Raise TypeError
  else Raise (AttributeError attr).

(** ["\n".join(el.to_xyz() for el in geometry)] *)
Definition format_geometry (g : Geometry) : result string :=
  lines <- mapM (fun el => call_method el "to_xyz") (atoms g) ;;
  Ok (join nl lines).

(** ** Notions used to state the properties *)

(** [s.split("\n")] *)
Fixpoint split_lines (s : string) : list string :=
  match s with
  | EmptyString => [""]
  | String c s' =>
      if Ascii.eqb c newline then "" :: split_lines s'
      else match split_lines s' with
           | l :: ls => String c l :: ls
           | [] => [chr c]
           end
  end.

Fixpoint string_forallb (p : ascii -> bool) (s : string) : bool :=
  match s with
  | EmptyString => true
  | String c s' => p c && string_forallb p s'
  end.

Definition is_space (c : ascii) : bool :=
  (Ascii.eqb c " " || in_range (ascii_of_nat 9) (ascii_of_nat 13) c)%bool.

Definition is_blank (l : string) : bool := string_forallb is_space l.

Definition first_nonblank_line (s : string) : option string :=
  find (fun l => negb (is_blank l)) (split_lines s).

Definition no_newline (s : string) : bool :=
  string_forallb (fun c => negb (Ascii.eqb c newline)) s.

Fixpoint count_char (c : ascii) (s : string) : nat :=
  match s with
  | EmptyString => O
  | String d s' => ((if Ascii.eqb c d then 1 else 0) + count_char c s')%nat
  end.

(** The last character of a token, as a one-character string. *)
Fixpoint last_char (s : string) : string :=
  match s with
  | EmptyString => ""
  | String c EmptyString => chr c
  | String _ s' => last_char s'
  end.

(** [re.fullmatch(r, s) is not None] *)
Definition fullmatch (r : Re.regex) (s : string) : bool :=
  existsb (fun a : Re.success => (snd a =? "")%string) (Re.matches r s).

(** A token of [\w] characters. *)
Definition word_token (s : string) : bool := string_forallb (Re.in_cls Re.word) s.

(** [avoids c r]: no part of [r] can consume the character [c]. *)
Fixpoint avoids (c : ascii) (r : Re.regex) : bool :=
  match r with
  | Re.Lit d => negb (Ascii.eqb d c)
  | Re.Class k | Re.Opt k | Re.Star k | Re.Plus k => negb (Re.in_cls k c)
  | Re.Cat r1 r2 => avoids c r1 && avoids c r2
  | Re.Group r1 => avoids c r1
  end.

(** A number of occurrences of [c] that every match of [r] consumes. *)
Fixpoint min_count (c : ascii) (r : Re.regex) : nat :=
  match r with
  | Re.Lit d => if Ascii.eqb c d then 1%nat else 0%nat
  | Re.Class [(lo, hi)] => if (Ascii.eqb lo c && Ascii.eqb hi c)%bool then 1%nat else 0%nat
  | Re.Class _ | Re.Opt _ | Re.Star _ | Re.Plus _ => 0%nat
  | Re.Cat r1 r2 => (min_count c r1 + min_count c r2)%nat
  | Re.Group r1 => min_count c r1
  end.

(** Extends the unread text of a success by [w]. *)
Definition app_tail (w : string) (a : Re.success) : Re.success :=
  (fst (fst a), snd (fst a), snd a ++ w).

Definition digits (s : string) : bool := string_forallb (Re.in_cls Re.digit) s.

(** Whether [s] begins with a character of the class [k]. *)
Definition starts_in (k : Re.cls) (s : string) : bool :=
  match s with
  | String c _ => Re.in_cls k c
  | EmptyString => false
  end.

(** The texts [FLOAT_PATTERN] matches in full: an optional sign, digits, a
    point, and at least one digit. *)
Inductive float_text : string -> Prop :=
| float_text_intro (sgn ip fp : string) :
    sgn = "" \/ sgn = "+" \/ sgn = "-" ->
    digits ip = true ->
    digits fp = true ->
    fp <> "" ->
    float_text (sgn ++ ip ++ "." ++ fp).

(** The name is one [\w] character and each coordinate prints, by [repr],
    as a text that [FLOAT_PATTERN] matches in full. *)
Definition prints_fixed (v : float) : bool := fullmatch FLOAT_PATTERN (float_repr v).

Definition xyz_printable (e : Element) : bool :=
  (match name e with
   | String c EmptyString => Re.in_cls Re.word c
   | _ => false
   end
   && prints_fixed (x e) && prints_fixed (y e) && prints_fixed (z e))%bool.

(** [float(repr(v)) == v], bit for bit. *)
Definition reads_back_as (v : float) : bool :=
  match float_of_string (float_repr v) with
  | Ok w => float_eqb w v
  | Raise _ => false
  end.

Definition xyz_safe (e : Element) : bool :=
  (xyz_printable e && reads_back_as (x e) && reads_back_as (y e) && reads_back_as (z e))%bool.

(** The group tuple that the pattern captures on the line of an atom. *)
Definition atom_fields (e : Element) : list string :=
  [name e; float_repr (x e); float_repr (y e); float_repr (z e)].

(** The characters [repr] of a float is made of. *)
Definition repr_char (c : ascii) : bool :=
  (is_digit c || existsb (Ascii.eqb c) [".";"-";"+";"e";"i";"n";"f";"a"]%char)%bool.

(** The text of a rendered NWChem deck up to the alpha-electron line, and
    from the line after the beta-electron line. *)
Definition deck_head {Mol : Type} (p : deck_params Mol) : string :=
  nl ++ "start " ++ (mol_name _ p ++ "_test") ++ nl ++
  nl ++ "echo" ++ nl ++
  memory _ p ++ nl ++
  nl ++ "geometry units " ++ geometry_units _ p ++ nl ++
  "symmetry c1" ++ nl ++
  geometry _ p ++ nl ++
  "end" ++ nl ++
  nl ++ "basis" ++ nl ++
  "* library " ++ basis _ p ++ nl ++
  "end" ++ nl ++
  nl ++ "charge " ++ str_int (deck_charge _ p) ++ nl ++
  nl ++ "scf" ++ nl ++
  "thresh " ++ float_format_e1 (scf_thresh _ p) ++ nl ++
  "tol2e " ++ float_repr (scf_tol2e _ p) ++ nl ++
  rhf _ p ++ nl ++
  spin _ p ++ nl ++
  match nopen _ p with Some n => "nopen " ++ str_int n | None => "" end ++ nl ++
  "end" ++ nl ++
  nl ++ "tce" ++ nl ++
  method _ p ++ nl ++
  "tilesize 1" ++ nl ++
  "2eorb" ++ nl ++
  "2emet 13" ++ nl ++
  "nroots " ++ str_int (num_tce_root _ p) ++ nl ++
  "thresh " ++ float_format_e1 (tce_thresh _ p) ++ nl ++
  "end" ++ nl ++
  nl ++ "set tce:print_integrals T" ++ nl ++
  "set tce:qorb " ++ str_int (num_active_orbitals _ p) ++ nl.

Definition deck_tail {Mol : Type} (p : deck_params Mol) : string :=
  nl ++ "task tce " ++ driver _ p ++ nl.

Definition electron_lines (num_el_a num_el_b : Z) : string :=
  "set tce:qela " ++ str_int num_el_a ++ nl ++
  "set tce:qelb " ++ str_int num_el_b ++ nl.

(** ** Sample inputs *)

(** A deck call with an explicit electron count and everything else at its
    default, used to exercise the statements below. *)
Definition sample_params (m : option unit) (n : option Z) : deck_params unit :=
  mkParams "h2" "H 0.0 0.0 0.0" 2
    "memory stack 1000 mb heap 100 mb global 1000 mb noverify" "au" "sto-3g" 0
    (float_of_decimal false 1 (-10)) (float_of_decimal false 1 (-10))
    "rhf" "singlet" None "ccsd" 5 (float_of_decimal false 1 (-6)) "energy" m n.

Definition ten_electrons (_ : unit) : Z := 10.

Definition h2_xyz : string :=
  "2" ++ nl ++ "title" ++ nl ++ "H 0.0 0.0 0.0" ++ nl ++ "H 0.0 0.0 0.7414" ++ nl.

(** [Geometry.from_xyz(text)], then [charge = c], then [to_xyz()]. *)
Definition parse_set_charge_serialize (text : string) (c : option Z) : result string :=
  g <- from_xyz text ;; Ok (to_xyz (set_charge c g)).

Definition zero : float := FZero false.

(** The hydrogen molecule of [h2_xyz], neutral; [0.7414] is the binary64
    nearest to that literal. *)
Definition h2_geometry : Geometry :=
  mkGeometry [mkElement "H" zero zero zero;
              mkElement "H" zero zero (FFinite false 6677937527464971 (-53))]
             (Some 0).

(** A sodium atom at the origin, in a neutral geometry. *)
Definition sodium : Geometry := mkGeometry [mkElement "Na" zero zero zero] (Some 0).

(** [2^-14 = 0.00006103515625], exactly representable. *)
Definition two_pow_minus_14 : float := FFinite false (2 ^ 52) (-66).

(** A hydrogen atom parsed from XYZ text: its charge is unset. *)
Definition h_xyz : string := "1" ++ nl ++ "title" ++ nl ++ "H 0.0 0.0 0.0" ++ nl.

Definition hydrogen : Geometry := mkGeometry [mkElement "H" zero zero zero] (Some 0).

(** A deck whose molecule name spans two lines. *)
Definition two_line_name : string := "a" ++ nl ++ "b".

Definition two_line_params : deck_params unit :=
  mkParams two_line_name "H 0.0 0.0 0.0" 2
    "memory stack 1000 mb heap 100 mb global 1000 mb noverify" "au" "sto-3g" 0
    (float_of_decimal false 1 (-10)) (float_of_decimal false 1 (-10))
    "rhf" "singlet" None "ccsd" 5 (float_of_decimal false 1 (-6)) "energy"
    None (Some 2).

(** The call [create_input_deck(mol_name, geometry, num_active_orbitals,
    num_active_el=n)]: every other optional parameter at its default. *)
Definition default_call (mol_name geometry : string) (num_active_orbitals n : Z)
  : deck_params unit :=
  let d : deck_params unit := default_params mol_name geometry num_active_orbitals in
  mkParams mol_name geometry num_active_orbitals
    (memory _ d) (geometry_units _ d) (basis _ d) (deck_charge _ d)
    (scf_thresh _ d) (scf_tol2e _ d) (rhf _ d) (spin _ d) (nopen _ d)
    (method _ d) (num_tce_root _ d) (tce_thresh _ d) (driver _ d)
    None (Some n).

(** Case analysis on the 256 characters. *)
Ltac ascii_cases c :=
  destruct c as [[] [] [] [] [] [] [] []];
  vm_compute in *; try reflexivity; try discriminate; try congruence.

(** * Properties *)

(** ** Text lemmas *)

Lemma append_assoc (a b c : string) : (a ++ b) ++ c = a ++ (b ++ c).
Proof.
  induction a as [|ch a IH]; simpl; [reflexivity | now rewrite IH].
Qed.

Lemma append_nil_r (a : string) : a ++ "" = a.
Proof.
  induction a as [|ch a IH]; simpl; [reflexivity | now rewrite IH].
Qed.

(** ** The NWChem template filled in *)

Lemma format_deck {Mol : Type} (p : deck_params Mol) (E : Z) :
  format NW_CHEM_TEMPLATE (deck_kwargs p E)
  = Ok (deck_head p ++ electron_lines (E / 2) (E / 2) ++ deck_tail p).
Proof.
  destruct p; unfold deck_head, deck_tail, electron_lines; cbn -[str_int float_repr float_format_e1 Z.div].
  repeat (rewrite !append_assoc; cbn -[str_int float_repr float_format_e1 Z.div]).
  reflexivity.
Qed.

(** ** NWChem: the source of the active-electron count *)

(** C3. When neither a molecule handle nor an explicit electron count is
    given, [create_input_deck] raises [ValueError]: nothing is returned, no
    warning is issued, and the template is never filled. *)
Theorem create_input_deck_without_electron_source
    {Mol : Type} (num_electrons : Mol -> Z) (p : deck_params Mol) :
  mol _ p = None ->
  num_active_el _ p = None ->
  create_input_deck num_electrons p = mkOutcome [] (Raise ValueError)
  /\ forall deck, returned (create_input_deck num_electrons p) <> Ok deck.
Proof.
  intros Hm Hn.
  assert (H : create_input_deck num_electrons p = mkOutcome [] (Raise ValueError)).
  { unfold create_input_deck, resolve_active_el. rewrite Hm, Hn. reflexivity. }
  split; [exact H | intros deck; rewrite H; discriminate].
Qed.

Lemma create_input_deck_without_electron_source_witness :
  mol _ (sample_params None None) = None
  /\ num_active_el _ (sample_params None None) = None
  /\ create_input_deck ten_electrons (sample_params None None)
     = mkOutcome [] (Raise ValueError).
Proof.
  split; [reflexivity | split; [reflexivity |]].
  apply (create_input_deck_without_electron_source ten_electrons
           (sample_params None None)); reflexivity.
Defined.

(** C4. When both a molecule handle (implying [N] electrons) and an explicit
    count [M <> N] are given, the call succeeds, one warning is issued, and
    the [qela] and [qelb] lines carry [M // 2]. *)
Theorem explicit_electron_count_wins
    {Mol : Type} (num_electrons : Mol -> Z) (p : deck_params Mol) (m : Mol) (M : Z) :
  mol _ p = Some m ->
  num_active_el _ p = Some M ->
  M <> num_electrons m ->
  create_input_deck num_electrons p
  = mkOutcome [ignoring_mol_warning]
      (Ok (deck_head p ++ electron_lines (M / 2) (M / 2) ++ deck_tail p)).
Proof.
  intros Hm Hn _.
  unfold create_input_deck, resolve_active_el. rewrite Hm, Hn. cbn [bind].
  now rewrite format_deck.
Qed.

Lemma explicit_electron_count_wins_witness :
  create_input_deck ten_electrons (sample_params (Some tt) (Some 7))
  = mkOutcome [ignoring_mol_warning]
      (Ok (deck_head (sample_params (Some tt) (Some 7))
           ++ electron_lines 3 3 ++ deck_tail (sample_params (Some tt) (Some 7)))).
Proof.
  apply (explicit_electron_count_wins ten_electrons
           (sample_params (Some tt) (Some 7)) tt 7);
    [reflexivity | reflexivity | unfold ten_electrons; lia].
Defined.

(** C6. In every successful call, with [E] the active-electron count the
    call settled on, the [qela] and [qelb] lines both carry [floor (E / 2)]:
    the integer [h] with [2 * h <= E < 2 * h + 2]. *)
Theorem alpha_beta_are_floor_half
    {Mol : Type} (num_electrons : Mol -> Z) (p : deck_params Mol) (deck : string) (E : Z) :
  returned (create_input_deck num_electrons p) = Ok deck ->
  snd (resolve_active_el num_electrons p) = Ok E ->
  exists h, 2 * h <= E < 2 * h + 2
            /\ deck = deck_head p ++ electron_lines h h ++ deck_tail p.
Proof.
  unfold create_input_deck.
  destruct (resolve_active_el num_electrons p) as [w el]. cbn [returned snd].
  intros Hdeck ->. cbn [bind] in Hdeck. rewrite format_deck in Hdeck.
  exists (E / 2). split.
  - pose proof (Z.div_mod E 2 ltac:(lia)). pose proof (Z.mod_pos_bound E 2 ltac:(lia)). lia.
  - congruence.
Qed.

Lemma alpha_beta_are_floor_half_witness :
  exists h, 2 * h <= 7 < 2 * h + 2
            /\ deck_head (sample_params None (Some 7)) ++ electron_lines 3 3
               ++ deck_tail (sample_params None (Some 7))
               = deck_head (sample_params None (Some 7)) ++ electron_lines h h
                 ++ deck_tail (sample_params None (Some 7)).
Proof.
  apply (alpha_beta_are_floor_half ten_electrons (sample_params None (Some 7))
           _ 7); [vm_compute; reflexivity | reflexivity].
Defined.

(** ** The XYZ codec on concrete geometries *)

(** C7, as stated, fails: the serializer joins its lines with newlines and
    puts none after the last one, so the text returned for the H2 example
    does not end in a newline. *)
Lemma h2_example_has_no_trailing_newline :
  parse_set_charge_serialize h2_xyz (Some 0)
  <> Ok ("2" ++ nl ++ "title" ++ nl ++ "H 0.0 0.0 0.0 " ++ nl
         ++ "H 0.0 0.0 0.7414 " ++ nl).
Proof. vm_compute. discriminate. Qed.

(** C7, amended. Parsing the H2 example, setting the charge to 0 and
    serializing returns the atom count, the title, and one atom line with a
    trailing space per atom, joined by newlines, with no charge block and no
    newline at the end. *)
Theorem h2_example_serialized :
  parse_set_charge_serialize h2_xyz (Some 0)
  = Ok ("2" ++ nl ++ "title" ++ nl ++ "H 0.0 0.0 0.0 " ++ nl
        ++ "H 0.0 0.0 0.7414 ").
Proof. vm_compute. reflexivity. Qed.

(** C1 fails on the code. Serializing a geometry whose only atom is [Na] and
    parsing the text back yields one atom named [a]: the pattern captures a
    single word character in front of the coordinates, so the symbol is not
    preserved. *)
Theorem round_trip_loses_symbol :
  to_xyz sodium = "1" ++ nl ++ "title" ++ nl ++ "Na 0.0 0.0 0.0 "
  /\ from_xyz (to_xyz sodium) = Ok (mkGeometry [mkElement "a" zero zero zero] None)
  /\ map name (atoms sodium) = ["Na"].
Proof. repeat split; vm_compute; reflexivity. Qed.

(** On the H2 example, whose symbols are single letters and whose
    coordinates print in fixed notation, the round trip gives the atoms
    back. *)
Lemma round_trip_h2 :
  from_xyz h2_xyz = Ok (set_charge None h2_geometry)
  /\ from_xyz (to_xyz h2_geometry) = Ok (set_charge None h2_geometry).
Proof. split; vm_compute; reflexivity. Qed.

(** The same round trip also drops every atom with a coordinate that [repr]
    prints in exponent notation, which the pattern does not match. *)
Lemma round_trip_drops_small_coordinate :
  let g := mkGeometry [mkElement "H" two_pow_minus_14 zero zero] (Some 0) in
  to_xyz g = "1" ++ nl ++ "title" ++ nl ++ "H 6.103515625e-05 0.0 0.0 "
  /\ from_xyz (to_xyz g) = Ok (mkGeometry [] None).
Proof. split; vm_compute; reflexivity. Qed.

(** C2 fails on the code. A geometry whose charge was never set serializes
    with a charge block, reading [chrg None]: [None != 0] holds in Python, so
    an unset charge is not treated as zero. *)
Theorem unset_charge_emits_block :
  parse_set_charge_serialize h_xyz None
  = Ok ("1" ++ nl ++ "title" ++ nl ++ "H 0.0 0.0 0.0 " ++ nl
        ++ "$set" ++ nl ++ "chrg None" ++ nl ++ "$end").
Proof. vm_compute. reflexivity. Qed.

(** For a charge that is set, the block follows the atom lines exactly when
    the charge is not zero. *)
Lemma charge_block_iff_nonzero (n : nat) (c : Z)
    (coords : list (string * float * float * float)) :
  xyz_lines n (Some c) coords
  = ([str_int (Z.of_nat n); "title"] ++ map atom_line coords
     ++ (if c =? 0 then [] else ["$set"; ("chrg " ++ str_int c)%string; "$end"]))%list.
Proof.
  unfold xyz_lines, ne_zero, charge_block, str_charge.
  destruct (c =? 0); reflexivity.
Qed.

(** ** OpenMolcas: [format_geometry] *)

(** C8 fails on the code. [format_geometry] calls [to_xyz] on each
    [Element], a method the class does not define: on a geometry with an atom
    the call raises [AttributeError] instead of returning the atom rendered by
    [element_to_xyz]. *)
Theorem format_geometry_raises :
  format_geometry hydrogen = Raise (AttributeError "to_xyz")
  /\ join nl (map (fun e => element_to_xyz (name e) (x e) (y e) (z e)) (atoms hydrogen))
     = "H 0.0 0.0 0.0".
Proof. split; vm_compute; reflexivity. Qed.

(** The same holds of every geometry that has an atom; only the empty
    geometry is formatted. *)
Lemma format_geometry_nonempty (g : Geometry) :
  atoms g <> [] -> format_geometry g = Raise (AttributeError "to_xyz").
Proof.
  unfold format_geometry. destruct (atoms g) as [|e l]; [congruence | reflexivity].
Qed.

(** ** NWChem: the [start] directive *)

Lemma split_lines_app_nl (a rest : string) :
  no_newline a = true ->
  split_lines (a ++ nl ++ rest) = a :: split_lines rest.
Proof.
  induction a as [|c a IH]; intros Ha.
  - reflexivity.
  - cbn [no_newline string_forallb] in Ha. apply andb_prop in Ha as [Hc Ha].
    change (String c a ++ nl ++ rest) with (String c (a ++ nl ++ rest)).
    cbn [split_lines]. apply negb_true_iff in Hc. rewrite Hc.
    now rewrite (IH Ha).
Qed.

Lemma string_forallb_app (p : ascii -> bool) (a b : string) :
  string_forallb p (a ++ b) = (string_forallb p a && string_forallb p b)%bool.
Proof.
  induction a as [|c a IH]; cbn [append string_forallb]; [reflexivity |].
  now rewrite IH, andb_assoc.
Qed.

Lemma no_newline_app (a b : string) :
  no_newline (a ++ b) = (no_newline a && no_newline b)%bool.
Proof. apply string_forallb_app. Qed.

Lemma length_append (a b : string) :
  String.length (a ++ b) = (String.length a + String.length b)%nat.
Proof.
  induction a as [|c a IH]; cbn; [reflexivity | now rewrite IH].
Qed.

Lemma append_suffix_neq (a b : string) : b <> "" -> a ++ b <> a.
Proof.
  intros Hb H. apply (f_equal String.length) in H. rewrite length_append in H.
  destruct b; [congruence | cbn in H; lia].
Qed.

Lemma first_nonblank_after_blank (l rest : string) :
  no_newline l = true ->
  is_blank l = false ->
  first_nonblank_line (nl ++ l ++ nl ++ rest) = Some l.
Proof.
  intros Hl Hb. unfold first_nonblank_line.
  change (nl ++ l ++ nl ++ rest) with (String newline (l ++ nl ++ rest)).
  cbn [split_lines]. change (Ascii.eqb newline newline) with true. cbv iota.
  rewrite (split_lines_app_nl l rest Hl). cbn [find is_blank string_forallb negb].
  now rewrite Hb.
Qed.

Lemma deck_begins_with_start {Mol : Type} (p : deck_params Mol) (tail : string) :
  exists rest,
    deck_head p ++ tail = nl ++ ("start " ++ mol_name _ p ++ "_test") ++ nl ++ rest.
Proof.
  eexists. unfold deck_head. rewrite !append_assoc. cbn [append nl chr].
  rewrite ?append_assoc. reflexivity.
Qed.

(** C9, as stated, fails: a molecule name is put into the template as it
    is, so a name with a line break in it leaves only its first line on the
    deck's first non-blank line. *)
Lemma start_line_of_two_line_name :
  exists deck,
    returned (create_input_deck ten_electrons two_line_params) = Ok deck
    /\ first_nonblank_line deck = Some "start a"
    /\ first_nonblank_line deck <> Some ("start " ++ two_line_name ++ "_test").
Proof.
  eexists. split; [vm_compute; reflexivity |].
  split; [vm_compute; reflexivity | vm_compute; discriminate].
Qed.

(** C9, amended. In every successful call whose molecule name [n] contains
    no line break, the first non-blank line of the deck is [start <n>_test],
    which is never [start <n>]: the suffix [_test] is always appended. *)
Theorem start_line_has_test_suffix
    {Mol : Type} (num_electrons : Mol -> Z) (p : deck_params Mol) (deck : string) :
  returned (create_input_deck num_electrons p) = Ok deck ->
  no_newline (mol_name _ p) = true ->
  first_nonblank_line deck = Some ("start " ++ mol_name _ p ++ "_test")
  /\ "start " ++ mol_name _ p ++ "_test" <> "start " ++ mol_name _ p.
Proof.
  intros Hdeck Hname. split.
  - unfold create_input_deck in Hdeck.
    destruct (resolve_active_el num_electrons p) as [w [E|e]]; cbn [returned bind] in Hdeck;
      [| discriminate].
    rewrite format_deck in Hdeck.
    assert (deck = deck_head p ++ electron_lines (E / 2) (E / 2) ++ deck_tail p)
      as -> by congruence.
    destruct (deck_begins_with_start p (electron_lines (E / 2) (E / 2) ++ deck_tail p))
      as [rest ->].
    apply first_nonblank_after_blank.
    + change ("start " ++ mol_name Mol p ++ "_test")
        with (String "s" (String "t" (String "a" (String "r" (String "t"
               (String " " (mol_name Mol p ++ "_test"))))))).
      cbn [no_newline string_forallb]. fold (no_newline (mol_name Mol p ++ "_test")).
      rewrite no_newline_app, Hname. reflexivity.
    + reflexivity.
  - intros H. injection H as H.
    exact (append_suffix_neq (mol_name Mol p) "_test" ltac:(discriminate) H).
Qed.

Lemma start_line_has_test_suffix_witness :
  first_nonblank_line
    (deck_head (sample_params None (Some 7)) ++ electron_lines 3 3
     ++ deck_tail (sample_params None (Some 7)))
  = Some ("start " ++ "h2" ++ "_test")
  /\ "start " ++ "h2" ++ "_test" <> "start " ++ "h2".
Proof.
  apply (start_line_has_test_suffix ten_electrons (sample_params None (Some 7)));
    [vm_compute; reflexivity | reflexivity].
Defined.

(** ** The matcher *)

Lemma in_range_refl_eq (a c : ascii) : in_range a a c = true -> c = a.
Proof.
  unfold in_range. intros H. apply andb_prop in H as [H1 H2].
  apply Nat.leb_le in H1, H2.
  rewrite <- (ascii_nat_embedding c), <- (ascii_nat_embedding a).
  f_equal. lia.
Qed.

Lemma ascii_eqb_sym (a b : ascii) : Ascii.eqb a b = Ascii.eqb b a.
Proof.
  destruct (Ascii.eqb_spec a b) as [->|H].
  - now rewrite Ascii.eqb_refl.
  - symmetry. apply Ascii.eqb_neq. congruence.
Qed.

Lemma count_char_app (c : ascii) (a b : string) :
  count_char c (a ++ b) = (count_char c a + count_char c b)%nat.
Proof.
  induction a as [|d a IH]; cbn [append count_char]; [reflexivity | rewrite IH; lia].
Qed.

(** Every success splits the subject into the text consumed and the text
    left. *)
Lemma star_sound (k : Re.cls) (s u rest : string) :
  In (u, rest) (Re.star k s) ->
  s = u ++ rest /\ string_forallb (Re.in_cls k) u = true.
Proof.
  revert u rest. induction s as [|c s IH]; intros u rest; cbn [Re.star].
  - intros [H|[]]. injection H as <- <-. now split.
  - destruct (Re.in_cls k c) eqn:Hc.
    + intros H. apply in_app_or in H as [H|[H|[]]].
      * apply in_map_iff in H as [[u' r'] [E H]]. cbn [fst snd] in E.
        injection E as <- <-. destruct (IH _ _ H) as [-> Hu].
        split; [reflexivity | cbn [string_forallb]; now rewrite Hc, Hu].
      * injection H as <- <-. now split.
    + intros [H|[]]. injection H as <- <-. now split.
Qed.

Lemma matches_sound (r : Re.regex) (s u : string) (g : list string) (rest : string) :
  In (u, g, rest) (Re.matches r s) -> s = u ++ rest.
Proof.
  revert s u g rest. induction r as [d|k|k|k|k|r1 IH1 r2 IH2|r1 IH1];
    intros s u g rest; cbn [Re.matches].
  - destruct s as [|e s]; [intros [] |].
    destruct (Ascii.eqb d e); [| intros []].
    intros [H|[]]. now injection H as <- <- <-.
  - destruct s as [|e s]; [intros [] |].
    destruct (Re.in_cls k e); [| intros []].
    intros [H|[]]. now injection H as <- <- <-.
  - destruct s as [|e s].
    + intros [H|[]]. now injection H as <- <- <-.
    + destruct (Re.in_cls k e).
      * intros [H|[H|[]]]; now injection H as <- <- <-.
      * intros [H|[]]. now injection H as <- <- <-.
  - intros H. apply in_map_iff in H as [[u' r'] [E H]]. cbn [fst snd] in E.
    injection E as <- <- <-. now apply star_sound in H as [-> _].
  - destruct s as [|e s]; [intros [] |].
    destruct (Re.in_cls k e); [| intros []].
    intros H. apply in_map_iff in H as [[u' r'] [E H]]. cbn [fst snd] in E.
    injection E as <- <- <-. now apply star_sound in H as [-> _].
  - intros H. apply in_flat_map in H as [[[u1 g1] s1] [H1 H]].
    apply in_map_iff in H as [[[u2 g2] s2] [E H2]]. injection E as <- <- <-.
    rewrite (IH1 _ _ _ _ H1), (IH2 _ _ _ _ H2). now rewrite append_assoc.
  - intros H. apply in_map_iff in H as [[[u' g'] r'] [E H]]. injection E as <- <- <-.
    exact (IH1 _ _ _ _ H).
Qed.

(** Every match of [r] consumes at least [min_count c r] occurrences of
    [c]. *)
Lemma matches_min_count (c : ascii) (r : Re.regex) (s u : string)
    (g : list string) (rest : string) :
  In (u, g, rest) (Re.matches r s) -> (min_count c r <= count_char c u)%nat.
Proof.
  revert s u g rest. induction r as [d|k|k|k|k|r1 IH1 r2 IH2|r1 IH1];
    intros s u g rest; cbn [Re.matches min_count]; try (intros _; lia).
  - destruct s as [|e s]; [intros [] |].
    destruct (Ascii.eqb_spec d e) as [->|Hde]; [| intros []].
    intros [H|[]]. injection H as <- <- <-. cbn [chr count_char]. lia.
  - destruct k as [|[lo hi] [|? ?]]; try (intros _; lia).
    destruct (Ascii.eqb_spec lo c) as [->|]; cbn [andb]; [| intros _; lia].
    destruct (Ascii.eqb_spec hi c) as [->|]; [| intros _; lia].
    destruct s as [|e s]; [intros [] |].
    destruct (Re.in_cls [(c, c)] e) eqn:He; [| intros []].
    intros [H|[]]. injection H as <- <- <-.
    cbn [Re.in_cls existsb fst snd] in He. rewrite orb_false_r in He.
    apply in_range_refl_eq in He as ->.
    cbn [chr count_char]. rewrite Ascii.eqb_refl. lia.
  - intros H. apply in_flat_map in H as [[[u1 g1] s1] [H1 H]].
    apply in_map_iff in H as [[[u2 g2] s2] [E H2]]. injection E as <- <- <-.
    rewrite count_char_app.
    specialize (IH1 _ _ _ _ H1). specialize (IH2 _ _ _ _ H2). lia.
  - intros H. apply in_map_iff in H as [[[u' g'] r'] [E H]]. injection E as <- <- <-.
    exact (IH1 _ _ _ _ H).
Qed.

(** A subject with fewer occurrences of [c] than every match needs has no
    match, anywhere. *)
Lemma matches_nil_of_count (c : ascii) (r : Re.regex) (s : string) :
  (count_char c s < min_count c r)%nat -> Re.matches r s = [].
Proof.
  intros Hlt. destruct (Re.matches r s) as [|[[u g] rest] l] eqn:E; [reflexivity |].
  assert (Hin : In (u, g, rest) (Re.matches r s)) by (rewrite E; now left).
  pose proof (matches_min_count c _ _ _ _ _ Hin) as Hmin.
  apply matches_sound in Hin. subst s. rewrite count_char_app in Hlt. lia.
Qed.

Lemma findall_from_nil_of_count (c : ascii) (r : Re.regex) (s : string) (skip : nat) :
  (count_char c s < min_count c r)%nat -> Re.findall_from r skip s = [].
Proof.
  revert skip. induction s as [|d s IH]; intros skip Hlt.
  - destruct skip; cbn [Re.findall_from]; [| reflexivity].
    unfold Re.match_at. now rewrite (matches_nil_of_count c r "" Hlt).
  - assert (Hs : (count_char c s < min_count c r)%nat).
    { cbn [count_char] in Hlt. lia. }
    destruct skip; cbn [Re.findall_from]; [| now apply IH].
    unfold Re.match_at. rewrite (matches_nil_of_count c r _ Hlt). cbn [hd_error].
    now apply IH.
Qed.

(** *** Matches do not extend over a character the pattern avoids *)

Lemma star_app_avoid (k : Re.cls) (c : ascii) (s t : string) :
  Re.in_cls k c = false ->
  Re.star k (s ++ String c t)
  = map (fun ur => (fst ur, snd ur ++ String c t)) (Re.star k s).
Proof.
  intros Hc. induction s as [|d s IH]; cbn [append Re.star map fst snd].
  - now rewrite Hc.
  - destruct (Re.in_cls k d); [| reflexivity].
    rewrite IH, map_app, !map_map. reflexivity.
Qed.

Lemma flat_map_app_tail {A : Type} (w : string) (F F' : A -> list Re.success)
    (l : list A) :
  (forall a, In a l -> F' a = map (app_tail w) (F a)) ->
  flat_map F' l = map (app_tail w) (flat_map F l).
Proof.
  induction l as [|a l IH]; intros H; cbn [flat_map]; [reflexivity |].
  rewrite map_app, (H a (or_introl eq_refl)), IH; [reflexivity |].
  intros b Hb. apply H. now right.
Qed.

Lemma matches_app_avoid (c : ascii) (r : Re.regex) (s t : string) :
  avoids c r = true ->
  Re.matches r (s ++ String c t) = map (app_tail (String c t)) (Re.matches r s).
Proof.
  revert s. induction r as [d|k|k|k|k|r1 IH1 r2 IH2|r1 IH1];
    intros s Hr; cbn [avoids] in Hr; cbn [Re.matches].
  - apply negb_true_iff in Hr.
    destruct s as [|e s]; cbn [append]; [now rewrite Hr |].
    destruct (Ascii.eqb d e); reflexivity.
  - apply negb_true_iff in Hr.
    destruct s as [|e s]; cbn [append]; [now rewrite Hr |].
    destruct (Re.in_cls k e); reflexivity.
  - apply negb_true_iff in Hr.
    destruct s as [|e s]; cbn [append]; [now rewrite Hr |].
    destruct (Re.in_cls k e); reflexivity.
  - apply negb_true_iff in Hr.
    rewrite (star_app_avoid k c s t Hr), !map_map. reflexivity.
  - apply negb_true_iff in Hr.
    destruct s as [|e s]; cbn [append]; [now rewrite Hr |].
    destruct (Re.in_cls k e); [| reflexivity].
    rewrite (star_app_avoid k c s t Hr), !map_map. reflexivity.
  - apply andb_prop in Hr as [Hr1 Hr2].
    rewrite (IH1 s Hr1), flat_map_concat_map, map_map, <- flat_map_concat_map.
    apply flat_map_app_tail. intros [[u1 g1] s1] _. cbn [app_tail fst snd].
    rewrite (IH2 s1 Hr2), !map_map. apply map_ext.
    intros [[u2 g2] s2]. reflexivity.
  - rewrite (IH1 s Hr), !map_map. apply map_ext.
    intros [[u g] s']. reflexivity.
Qed.

Section Scanning.

Variable r : Re.regex.
Variable c : ascii.
Hypothesis r_avoids : avoids c r = true.
Hypothesis r_nonempty : Re.matches r "" = [].

Lemma match_at_app_avoid (s t : string) :
  Re.match_at r (s ++ String c t)
  = option_map (app_tail (String c t)) (Re.match_at r s).
Proof.
  unfold Re.match_at. rewrite (matches_app_avoid c r s t r_avoids).
  destruct (Re.matches r s); reflexivity.
Qed.

Lemma match_length (s u : string) (g : list string) (rest : string) :
  Re.match_at r s = Some (u, g, rest) ->
  (String.length u <= String.length s)%nat.
Proof.
  unfold Re.match_at. intros H.
  destruct (Re.matches r s) as [|a l] eqn:E; [discriminate |].
  injection H as ->.
  assert (Hin : In (u, g, rest) (Re.matches r s)) by (rewrite E; now left).
  apply matches_sound in Hin. subst s. rewrite length_append. lia.
Qed.

(** Scanning [s], the avoided character, and [t] finds the matches of [s]
    and then those of [t]. *)
Lemma findall_from_app_avoid (s t : string) (skip : nat) :
  (skip <= String.length s)%nat ->
  Re.findall_from r skip (s ++ String c t)
  = (Re.findall_from r skip s ++ Re.findall r t)%list.
Proof.
  revert skip. induction s as [|d s IH]; intros skip Hskip.
  - cbn [String.length] in Hskip. assert (skip = 0%nat) as -> by lia.
    pose proof (match_at_app_avoid "" t) as H.
    change ("" ++ String c t) with (String c t) in *.
    cbn [Re.findall_from]. rewrite H.
    unfold Re.match_at at 1 2. rewrite r_nonempty. reflexivity.
  - change (String d s ++ String c t) with (String d (s ++ String c t)).
    destruct skip as [|k]; cbn [Re.findall_from].
    + change (String d (s ++ String c t)) with (String d s ++ String c t).
      rewrite (match_at_app_avoid (String d s) t).
      destruct (Re.match_at r (String d s)) as [[[u g] rest]|] eqn:E;
        cbn [option_map app_tail fst snd].
      * rewrite IH; [reflexivity |].
        apply match_length in E. cbn [String.length] in E. lia.
      * apply IH. lia.
    + apply IH. cbn [String.length] in Hskip. lia.
Qed.

Lemma findall_app_avoid (s t : string) :
  Re.findall r (s ++ String c t) = (Re.findall r s ++ Re.findall r t)%list.
Proof. apply findall_from_app_avoid. lia. Qed.

(** The matches of lines joined by the avoided character are the matches of
    each line, in order. *)
Lemma findall_join (ls : list string) :
  Re.findall r (join (chr c) ls) = List.concat (map (Re.findall r) ls).
Proof.
  induction ls as [|l ls IH].
  - cbn. unfold Re.findall, Re.findall_from, Re.match_at. now rewrite r_nonempty.
  - destruct ls as [|l' ls].
    + cbn [join String.concat map List.concat]. now rewrite app_nil_r.
    + change (join (chr c) (l :: l' :: ls))
        with (l ++ String c (join (chr c) (l' :: ls))).
      rewrite findall_app_avoid, IH. reflexivity.
Qed.

End Scanning.

(** ** Parser selectivity *)

Lemma xyz_avoids_newline : avoids newline XYZ_PATTERN = true.
Proof. reflexivity. Qed.

Lemma xyz_needs_text : Re.matches XYZ_PATTERN "" = [].
Proof. reflexivity. Qed.

(** The atoms parsed from a text are those parsed from its lines. *)
Lemma findall_xyz_lines (ls : list string) :
  Re.findall XYZ_PATTERN (join nl ls) = List.concat (map (Re.findall XYZ_PATTERN) ls).
Proof. exact (findall_join XYZ_PATTERN newline xyz_avoids_newline xyz_needs_text ls). Qed.

(** C5. A line with fewer than three decimal points (a coordinate is
    missing, as in [C 1.0], or is an integer, as in [C 1 2 3]) or with fewer
    than three spaces (a coordinate is missing) matches no atom: the pattern
    finds nothing in it, and a text parses to what it parses to without that
    line. *)
Theorem incomplete_line_yields_no_atom (line : string) :
  (count_char "." line < 3 \/ count_char " " line < 3)%nat ->
  Re.findall XYZ_PATTERN line = []
  /\ forall before after : list string,
       from_xyz (join nl (before ++ line :: after))
       = from_xyz (join nl (before ++ after)).
Proof.
  intros H.
  assert (Hline : Re.findall XYZ_PATTERN line = []).
  { destruct H as [H|H].
    - exact (findall_from_nil_of_count "." XYZ_PATTERN line 0 H).
    - exact (findall_from_nil_of_count " " XYZ_PATTERN line 0 H). }
  split; [exact Hline |].
  intros before after. unfold from_xyz.
  rewrite !findall_xyz_lines, !map_app, !concat_app.
  cbn [map List.concat]. rewrite Hline. reflexivity.
Qed.

Lemma incomplete_line_yields_no_atom_witness :
  Re.findall XYZ_PATTERN "C 1.0" = []
  /\ forall before after : list string,
       from_xyz (join nl (before ++ "C 1.0" :: after))
       = from_xyz (join nl (before ++ after)).
Proof.
  apply (incomplete_line_yields_no_atom "C 1.0"). left. cbn. lia.
Defined.

(** The two lines the specification names, inside the H2 example. *)
Lemma incomplete_lines_in_h2 :
  from_xyz (join nl ["2"; "title"; "H 0.0 0.0 0.0"; "C 1.0"; "C 1 2 3"; "H 0.0 0.0 0.7414"])
  = from_xyz (join nl ["2"; "title"; "H 0.0 0.0 0.0"; "H 0.0 0.0 0.7414"])
  /\ from_xyz "C 1.0" = Ok (mkGeometry [] None)
  /\ from_xyz "C 1 2 3" = Ok (mkGeometry [] None).
Proof. repeat split; vm_compute; reflexivity. Qed.

(** ** What the pattern captures *)

(** *** Inversion of the successes of each construct *)

Lemma in_matches_group (r : Re.regex) (s u : string) (g : list string) (rest : string) :
  In (u, g, rest) (Re.matches (Re.Group r) s) ->
  exists g', g = u :: g' /\ In (u, g', rest) (Re.matches r s).
Proof.
  cbn [Re.matches]. intros H.
  apply in_map_iff in H as [[[u' g'] r'] [E H]]. injection E as <- <- <-.
  now exists g'.
Qed.

Lemma in_matches_cat (r1 r2 : Re.regex) (s u : string) (g : list string) (rest : string) :
  In (u, g, rest) (Re.matches (Re.Cat r1 r2) s) ->
  exists u1 g1 s1 u2 g2,
    In (u1, g1, s1) (Re.matches r1 s) /\ In (u2, g2, rest) (Re.matches r2 s1)
    /\ u = u1 ++ u2 /\ g = (g1 ++ g2)%list.
Proof.
  cbn [Re.matches]. intros H.
  apply in_flat_map in H as [[[u1 g1] s1] [H1 H]].
  apply in_map_iff in H as [[[u2 g2] s2] [E H2]]. injection E as <- <- <-.
  now exists u1, g1, s1, u2, g2.
Qed.

Lemma in_matches_opt (k : Re.cls) (s u : string) (g : list string) (rest : string) :
  In (u, g, rest) (Re.matches (Re.Opt k) s) ->
  g = [] /\ (u = "" \/ exists c, u = chr c /\ Re.in_cls k c = true).
Proof.
  cbn [Re.matches]. destruct s as [|e s].
  - intros [H|[]]. injection H as <- <- <-. now split; [| left].
  - destruct (Re.in_cls k e) eqn:He.
    + intros [H|[H|[]]]; injection H as <- <- <-; split; trivial;
        [right; now exists e | now left].
    + intros [H|[]]. injection H as <- <- <-. now split; [| left].
Qed.

Lemma in_matches_star (k : Re.cls) (s u : string) (g : list string) (rest : string) :
  In (u, g, rest) (Re.matches (Re.Star k) s) ->
  g = [] /\ string_forallb (Re.in_cls k) u = true.
Proof.
  cbn [Re.matches]. intros H.
  apply in_map_iff in H as [[u' r'] [E H]]. cbn [fst snd] in E. injection E as <- <- <-.
  now apply star_sound in H as [_ H].
Qed.

Lemma in_matches_plus (k : Re.cls) (s u : string) (g : list string) (rest : string) :
  In (u, g, rest) (Re.matches (Re.Plus k) s) ->
  g = [] /\ string_forallb (Re.in_cls k) u = true /\ u <> "".
Proof.
  cbn [Re.matches]. destruct s as [|e s]; [intros [] |].
  destruct (Re.in_cls k e) eqn:He; [| intros []].
  intros H. apply in_map_iff in H as [[u' r'] [E H]]. cbn [fst snd] in E.
  injection E as <- <- <-. apply star_sound in H as [_ H].
  repeat split; [| discriminate]. cbn [string_forallb]. now rewrite He, H.
Qed.

Lemma in_matches_class (k : Re.cls) (s u : string) (g : list string) (rest : string) :
  In (u, g, rest) (Re.matches (Re.Class k) s) ->
  g = [] /\ exists c, u = chr c /\ Re.in_cls k c = true.
Proof.
  cbn [Re.matches]. destruct s as [|e s]; [intros [] |].
  destruct (Re.in_cls k e) eqn:He; [| intros []].
  intros [H|[]]. injection H as <- <- <-. split; [reflexivity | now exists e].
Qed.

Lemma in_sign_class (c : ascii) :
  Re.in_cls [("+", "+"); ("-", "-")]%char c = true -> c = "+"%char \/ c = "-"%char.
Proof.
  cbn [Re.in_cls existsb fst snd]. rewrite orb_false_r. intros H.
  apply orb_prop in H as [H|H]; apply in_range_refl_eq in H; auto.
Qed.

Lemma in_dot_class (c : ascii) :
  Re.in_cls [(".", ".")]%char c = true -> c = "."%char.
Proof.
  cbn [Re.in_cls existsb fst snd]. rewrite orb_false_r. apply in_range_refl_eq.
Qed.

(** What [FLOAT_PATTERN] consumes is a [float_text], captured whole. *)
Lemma in_matches_float (s u : string) (g : list string) (rest : string) :
  In (u, g, rest) (Re.matches FLOAT_PATTERN s) -> float_text u /\ g = [u].
Proof.
  unfold FLOAT_PATTERN. intros H.
  apply in_matches_group in H as [g' [-> H]].
  apply in_matches_cat in H as (u1 & g1 & s1 & v1 & h1 & H1 & H & -> & ->).
  apply in_matches_cat in H as (u2 & g2 & s2 & v2 & h2 & H2 & H & -> & ->).
  apply in_matches_cat in H as (u3 & g3 & s3 & u4 & g4 & H3 & H4 & -> & ->).
  apply in_matches_opt in H1 as [-> H1].
  apply in_matches_star in H2 as [-> H2].
  apply in_matches_class in H3 as [-> [c [-> H3]]].
  apply in_matches_plus in H4 as [-> [H4 H4']].
  apply in_dot_class in H3 as ->.
  split; [| reflexivity].
  apply (float_text_intro u1 u2 u4); trivial.
  destruct H1 as [->|[c [-> Hc]]]; [now left |].
  apply in_sign_class in Hc as [->| ->]; auto.
Qed.

Lemma fullmatch_float_text (s : string) :
  fullmatch FLOAT_PATTERN s = true -> float_text s.
Proof.
  unfold fullmatch. intros H.
  apply existsb_exists in H as [[[u g] rest] [Hin Hrest]].
  cbn [snd] in Hrest. apply String.eqb_eq in Hrest as ->.
  pose proof (matches_sound _ _ _ _ _ Hin) as E. rewrite append_nil_r in E. subst u.
  now apply in_matches_float in Hin as [H _].
Qed.

Lemma in_matches_lit (c : ascii) (s u : string) (g : list string) (rest : string) :
  In (u, g, rest) (Re.matches (Re.Lit c) s) -> g = [] /\ u = chr c.
Proof.
  cbn [Re.matches]. destruct s as [|e s]; [intros [] |].
  destruct (Ascii.eqb_spec c e) as [->|]; [| intros []].
  intros [H|[]]. injection H as <- <- <-. now split.
Qed.

(** What [XYZ_PATTERN] consumes is one word character and three
    [float_text]s, separated by single spaces; those are its four groups. *)
Lemma in_matches_xyz (s u : string) (g : list string) (rest : string) :
  In (u, g, rest) (Re.matches XYZ_PATTERN s) ->
  exists c x y z,
    Re.in_cls Re.word c = true /\ float_text x /\ float_text y /\ float_text z
    /\ u = chr c ++ " " ++ x ++ " " ++ y ++ " " ++ z
    /\ g = [chr c; x; y; z].
Proof.
  unfold XYZ_PATTERN. intros H.
  apply in_matches_cat in H as (u0 & g0 & s0 & v0 & h0 & H0 & H & -> & ->).
  apply in_matches_cat in H as (u1 & g1 & s1 & v1 & h1 & H1 & H & -> & ->).
  apply in_matches_cat in H as (u2 & g2 & s2 & v2 & h2 & H2 & H & -> & ->).
  apply in_matches_cat in H as (u3 & g3 & s3 & v3 & h3 & H3 & H & -> & ->).
  apply in_matches_cat in H as (u4 & g4 & s4 & v4 & h4 & H4 & H & -> & ->).
  apply in_matches_cat in H as (u5 & g5 & s5 & u6 & g6 & H5 & H6 & -> & ->).
  apply in_matches_group in H0 as [g' [-> H0]].
  apply in_matches_class in H0 as [-> [c [-> Hc]]].
  apply in_matches_lit in H1 as [-> ->], H3 as [-> ->], H5 as [-> ->].
  apply in_matches_float in H2 as [Hx ->], H4 as [Hy ->], H6 as [Hz ->].
  exists c, u2, u4, u6. repeat split; trivial.
Qed.

(** Every group tuple that the scan returns was matched at some position of
    the subject. *)
Lemma in_findall_from (r : Re.regex) (s : string) (skip : nat) (g : list string) :
  In g (Re.findall_from r skip s) ->
  exists pre suf u rest, s = pre ++ suf /\ Re.match_at r suf = Some (u, g, rest).
Proof.
  revert skip. induction s as [|d s IH]; intros skip H.
  - destruct skip; cbn [Re.findall_from] in H; [| destruct H].
    destruct (Re.match_at r "") as [[[u g'] rest]|] eqn:E; [| destruct H].
    destruct H as [->|[]]. now exists "", "", u, rest.
  - assert (Hs : forall k, In g (Re.findall_from r k s) ->
                 exists pre suf u rest,
                   String d s = pre ++ suf /\ Re.match_at r suf = Some (u, g, rest)).
    { intros k Hk. destruct (IH k Hk) as (pre & suf & u & rest & -> & Hm).
      now exists (String d pre), suf, u, rest. }
    destruct skip; cbn [Re.findall_from] in H; [| now apply (Hs skip)].
    destruct (Re.match_at r (String d s)) as [[[u g'] rest]|] eqn:E;
      [| now apply (Hs 0%nat)].
    destruct H as [->|H]; [| now apply (Hs _ H)].
    now exists "", (String d s), u, rest.
Qed.

(** No partial atom: every tuple that [from_xyz] converts stands in the
    text, whole, as a word character and three fixed-point numbers. *)
Lemma findall_xyz_sound (s : string) (g : list string) :
  In g (Re.findall XYZ_PATTERN s) ->
  exists pre c x y z post,
    Re.in_cls Re.word c = true /\ float_text x /\ float_text y /\ float_text z
    /\ s = pre ++ (chr c ++ " " ++ x ++ " " ++ y ++ " " ++ z) ++ post
    /\ g = [chr c; x; y; z].
Proof.
  intros H. apply in_findall_from in H as (pre & suf & u & rest & -> & Hm).
  unfold Re.match_at in Hm.
  destruct (Re.matches XYZ_PATTERN suf) as [|a l] eqn:E; [discriminate |].
  injection Hm as ->.
  assert (Hin : In (u, g, rest) (Re.matches XYZ_PATTERN suf)) by (rewrite E; now left).
  pose proof (matches_sound _ _ _ _ _ Hin) as ->.
  apply in_matches_xyz in Hin as (c & x & y & z & Hc & Hx & Hy & Hz & -> & ->).
  now exists pre, c, x, y, z, rest.
Qed.

(** *** The first success on a subject that begins with a [float_text] *)

Lemma match_at_cat (r1 r2 : Re.regex) (s u1 s1 u2 s2 : string) (g1 g2 : list string) :
  Re.match_at r1 s = Some (u1, g1, s1) ->
  Re.match_at r2 s1 = Some (u2, g2, s2) ->
  Re.match_at (Re.Cat r1 r2) s = Some (u1 ++ u2, (g1 ++ g2)%list, s2).
Proof.
  unfold Re.match_at. cbn [Re.matches].
  destruct (Re.matches r1 s) as [|a l]; [discriminate |].
  intros H1. injection H1 as ->. cbn [flat_map].
  destruct (Re.matches r2 s1) as [|b l']; [discriminate |].
  intros H2. injection H2 as ->. reflexivity.
Qed.

Lemma match_at_group (r : Re.regex) (s u rest : string) (g : list string) :
  Re.match_at r s = Some (u, g, rest) ->
  Re.match_at (Re.Group r) s = Some (u, u :: g, rest).
Proof.
  unfold Re.match_at. cbn [Re.matches].
  destruct (Re.matches r s) as [|a l]; [discriminate |].
  intros H. injection H as ->. reflexivity.
Qed.

Lemma star_head (k : Re.cls) (u t : string) :
  string_forallb (Re.in_cls k) u = true ->
  starts_in k t = false ->
  hd_error (Re.star k (u ++ t)) = Some (u, t).
Proof.
  intros Hu Ht. induction u as [|d u IH]; cbn [append].
  - destruct t as [|c t]; [reflexivity |]. cbn [starts_in] in Ht.
    cbn [Re.star]. now rewrite Ht.
  - cbn [string_forallb] in Hu. apply andb_prop in Hu as [Hd Hu].
    cbn [Re.star]. rewrite Hd. specialize (IH Hu).
    destruct (Re.star k (u ++ t)) as [|a l]; [discriminate |].
    injection IH as ->. reflexivity.
Qed.

Lemma match_at_star (k : Re.cls) (u t : string) :
  string_forallb (Re.in_cls k) u = true ->
  starts_in k t = false ->
  Re.match_at (Re.Star k) (u ++ t) = Some (u, [], t).
Proof.
  intros Hu Ht. unfold Re.match_at. cbn [Re.matches].
  pose proof (star_head k u t Hu Ht) as H.
  destruct (Re.star k (u ++ t)) as [|a l]; [discriminate |].
  injection H as ->. reflexivity.
Qed.

Lemma match_at_plus (k : Re.cls) (u t : string) :
  string_forallb (Re.in_cls k) u = true ->
  u <> "" ->
  starts_in k t = false ->
  Re.match_at (Re.Plus k) (u ++ t) = Some (u, [], t).
Proof.
  intros Hu Hne Ht. destruct u as [|d u]; [congruence |].
  cbn [string_forallb] in Hu. apply andb_prop in Hu as [Hd Hu].
  unfold Re.match_at. cbn [append Re.matches]. rewrite Hd.
  pose proof (star_head k u t Hu Ht) as H.
  destruct (Re.star k (u ++ t)) as [|a l]; [discriminate |].
  injection H as ->. reflexivity.
Qed.

Lemma digit_is_no_sign (c : ascii) :
  Re.in_cls Re.digit c = true -> Re.in_cls [("+", "+"); ("-", "-")]%char c = false.
Proof. intros H. ascii_cases c. Qed.

Lemma match_at_sign (sgn ip t : string) :
  sgn = "" \/ sgn = "+" \/ sgn = "-" ->
  digits ip = true ->
  Re.match_at (Re.Opt [("+", "+"); ("-", "-")]%char) (sgn ++ ip ++ "." ++ t)
  = Some (sgn, [], ip ++ "." ++ t).
Proof.
  intros [->|[->| ->]] Hip; try reflexivity.
  destruct ip as [|d ip]; [reflexivity |].
  cbn [digits string_forallb] in Hip. apply andb_prop in Hip as [Hd _].
  unfold Re.match_at. cbn [append Re.matches].
  now rewrite (digit_is_no_sign d Hd).
Qed.

Lemma match_at_float (x rest : string) :
  float_text x ->
  starts_in Re.digit rest = false ->
  Re.match_at FLOAT_PATTERN (x ++ rest) = Some (x, [x], rest).
Proof.
  intros [sgn ip fp Hsgn Hip Hfp Hne] Hrest. unfold FLOAT_PATTERN.
  apply match_at_group.
  rewrite !append_assoc.
  apply (match_at_cat _ _ _ sgn (ip ++ "." ++ fp ++ rest) _ rest [] []).
  - now apply match_at_sign.
  - apply (match_at_cat _ _ _ ip ("." ++ fp ++ rest) _ rest [] []).
    + apply match_at_star; [exact Hip | reflexivity].
    + apply (match_at_cat _ _ _ "." (fp ++ rest) fp rest [] []).
      * reflexivity.
      * now apply match_at_plus.
Qed.

(** *** [float] accepts every [float_text] *)

Lemma in_cls_digit (c : ascii) : Re.in_cls Re.digit c = is_digit c.
Proof. cbn [Re.in_cls Re.digit existsb fst snd]. apply orb_false_r. Qed.

Lemma read_digits_app (ds rest : string) (acc cnt : Z) :
  digits ds = true ->
  starts_in Re.digit rest = false ->
  exists v, read_digits acc cnt (ds ++ rest) = (v, cnt + Z.of_nat (String.length ds), rest).
Proof.
  intros Hds Hrest. revert acc cnt. induction ds as [|d ds IH]; intros acc cnt.
  - exists acc. cbn [append String.length]. rewrite Z.add_0_r.
    destruct rest as [|c t]; [reflexivity |].
    cbn [starts_in] in Hrest. rewrite in_cls_digit in Hrest.
    cbn [read_digits]. now rewrite Hrest.
  - cbn [digits string_forallb] in Hds. apply andb_prop in Hds as [Hd Hds].
    rewrite in_cls_digit in Hd.
    destruct (IH Hds (10 * acc + digit_val d) (cnt + 1)) as [v Hv].
    exists v. cbn [append read_digits String.length]. rewrite Hd, Hv.
    f_equal. f_equal. lia.
Qed.

Lemma read_sign_digit (d : ascii) (t : string) :
  Re.in_cls Re.digit d = true -> read_sign (String d t) = (false, String d t).
Proof. intros H. ascii_cases d. Qed.

Lemma not_special_literal (c : ascii) (t : string) :
  (Re.in_cls Re.digit c || Ascii.eqb c ".")%bool = true ->
  ((String c t =? "inf") || (String c t =? "infinity"))%string = false
  /\ (String c t =? "nan")%string = false.
Proof.
  intros H. destruct c as [[] [] [] [] [] [] [] []];
    vm_compute in H; try discriminate; split; reflexivity.
Qed.

Lemma float_of_unsigned_digits (neg : bool) (ip fp : string) :
  digits ip = true ->
  digits fp = true ->
  fp <> "" ->
  exists f, float_of_unsigned neg (ip ++ "." ++ fp) = Ok f.
Proof.
  intros Hip Hfp Hne. unfold float_of_unsigned.
  assert (Hsp : ((ip ++ "." ++ fp =? "inf") || (ip ++ "." ++ fp =? "infinity"))%string = false
                /\ (ip ++ "." ++ fp =? "nan")%string = false).
  { destruct ip as [|d ip].
    - apply not_special_literal. reflexivity.
    - cbn [digits string_forallb] in Hip. apply andb_prop in Hip as [Hd _].
      apply not_special_literal. now rewrite Hd. }
  destruct Hsp as [-> ->].
  destruct (read_digits_app ip ("." ++ fp) 0 0 Hip eq_refl) as [v ->].
  cbn [append].
  destruct (read_digits_app fp "" v 0 Hfp eq_refl) as [d Hd].
  rewrite append_nil_r in Hd. rewrite Hd.
  assert (Hlen : ((0 + Z.of_nat (String.length ip)) + (0 + Z.of_nat (String.length fp)) =? 0)
                 = false).
  { apply Z.eqb_neq. destruct fp; [congruence | cbn [String.length]; lia]. }
  rewrite Hlen. eexists. reflexivity.
Qed.

Lemma float_of_string_float_text (s : string) :
  float_text s -> exists f, float_of_string s = Ok f.
Proof.
  intros [sgn ip fp Hsgn Hip Hfp Hne]. unfold float_of_string.
  destruct Hsgn as [->|[->| ->]].
  - assert (read_sign ("" ++ ip ++ "." ++ fp) = (false, ip ++ "." ++ fp)) as ->.
    { destruct ip as [|d ip]; [reflexivity |].
      cbn [digits string_forallb] in Hip. apply andb_prop in Hip as [Hd _].
      exact (read_sign_digit d _ Hd). }
    now apply float_of_unsigned_digits.
  - change (read_sign ("+" ++ ip ++ "." ++ fp)) with (false, ip ++ "." ++ fp).
    now apply float_of_unsigned_digits.
  - change (read_sign ("-" ++ ip ++ "." ++ fp)) with (true, ip ++ "." ++ fp).
    now apply float_of_unsigned_digits.
Qed.

(** ** Symbols of several letters *)

Lemma matches_needs_separator (k : Re.cls) (c : ascii) (r : Re.regex)
    (a b : ascii) (t : string) :
  Ascii.eqb c b = false ->
  Re.matches (Re.Cat (Re.Group (Re.Class k)) (Re.Cat (Re.Lit c) r)) (String a (String b t))
  = [].
Proof.
  intros H. cbn [Re.matches].
  destruct (Re.in_cls k a); cbn [map flat_map]; [| reflexivity].
  now rewrite H.
Qed.

Lemma word_is_no_space (c : ascii) :
  Re.in_cls Re.word c = true -> Ascii.eqb " " c = false.
Proof. intros H. ascii_cases c. Qed.

Lemma match_at_xyz_atom (c : ascii) (x y z : string) :
  Re.in_cls Re.word c = true ->
  float_text x -> float_text y -> float_text z ->
  Re.match_at XYZ_PATTERN (chr c ++ " " ++ x ++ " " ++ y ++ " " ++ z)
  = Some (chr c ++ " " ++ x ++ " " ++ y ++ " " ++ z, [chr c; x; y; z], "").
Proof.
  intros Hc Hx Hy Hz. unfold XYZ_PATTERN.
  apply (match_at_cat _ _ _ (chr c) (" " ++ x ++ " " ++ y ++ " " ++ z) _ "" [chr c] [x; y; z]).
  { unfold Re.match_at. cbn [chr append Re.matches]. now rewrite Hc. }
  apply (match_at_cat _ _ _ " " (x ++ " " ++ y ++ " " ++ z) _ "" [] [x; y; z]);
    [reflexivity |].
  apply (match_at_cat _ _ _ x (" " ++ y ++ " " ++ z) _ "" [x] [y; z]);
    [now apply match_at_float |].
  apply (match_at_cat _ _ _ " " (y ++ " " ++ z) _ "" [] [y; z]); [reflexivity |].
  apply (match_at_cat _ _ _ y (" " ++ z) _ "" [y] [z]); [now apply match_at_float |].
  apply (match_at_cat _ _ _ " " z z "" [] [z]); [reflexivity |].
  rewrite <- (append_nil_r z) at 1. now apply match_at_float.
Qed.

(** Once the previous match covers the rest of the subject, nothing more is
    found. *)
Lemma findall_from_past_end (r : Re.regex) (s : string) (skip : nat) :
  Re.matches r "" = [] ->
  (String.length s <= skip)%nat ->
  Re.findall_from r skip s = [].
Proof.
  intros Hr. revert skip. induction s as [|d s IH]; intros skip Hlen.
  - destruct skip; cbn [Re.findall_from]; [| reflexivity].
    unfold Re.match_at. now rewrite Hr.
  - cbn [String.length] in Hlen. destruct skip as [|k]; [lia |].
    cbn [Re.findall_from]. apply IH. lia.
Qed.

Lemma length_last_char (t : string) : t <> "" -> String.length (last_char t) = 1%nat.
Proof.
  induction t as [|a t IH]; [congruence |]. intros _.
  destruct t as [|b t]; [reflexivity |].
  change (last_char (String a (String b t))) with (last_char (String b t)).
  apply IH. discriminate.
Qed.

(** On a line that is a word token, a space and three coordinates, the
    scan finds one match, at the last character of the token. *)
Lemma findall_token_line (t x y z : string) :
  word_token t = true ->
  t <> "" ->
  float_text x -> float_text y -> float_text z ->
  Re.findall XYZ_PATTERN (t ++ " " ++ x ++ " " ++ y ++ " " ++ z)
  = [[last_char t; x; y; z]].
Proof.
  intros Ht Hne Hx Hy Hz. unfold Re.findall.
  induction t as [|a t IH]; [congruence |].
  cbn [word_token string_forallb] in Ht. apply andb_prop in Ht as [Ha Ht].
  destruct t as [|b t].
  - change (String a "" ++ " " ++ x ++ " " ++ y ++ " " ++ z)
      with (String a (" " ++ x ++ " " ++ y ++ " " ++ z)).
    cbn [Re.findall_from last_char].
    change (String a (" " ++ x ++ " " ++ y ++ " " ++ z))
      with (chr a ++ " " ++ x ++ " " ++ y ++ " " ++ z).
    rewrite (match_at_xyz_atom a x y z Ha Hx Hy Hz).
    f_equal. apply findall_from_past_end; [reflexivity |].
    cbn [chr append String.length]. lia.
  - change (String a (String b t) ++ " " ++ x ++ " " ++ y ++ " " ++ z)
      with (String a (String b (t ++ " " ++ x ++ " " ++ y ++ " " ++ z))).
    cbn [Re.findall_from]. unfold Re.match_at at 1. unfold XYZ_PATTERN at 1.
    rewrite matches_needs_separator.
    + cbn [hd_error].
      change (last_char (String a (String b t))) with (last_char (String b t)).
      apply IH; [exact Ht | discriminate].
    + apply word_is_no_space. cbn [string_forallb] in Ht.
      now apply andb_prop in Ht as [Hb _].
Qed.

(** C10. On a line [tok x y z], where [tok] is a word token of two or more
    characters and [x], [y], [z] match [FLOAT_PATTERN], [from_xyz] yields
    exactly one atom, with the coordinates read from [x], [y], [z], and its
    name is the last character of [tok] alone, never [tok]. *)
Theorem multi_letter_symbol_keeps_last_letter (tok x y z : string) :
  word_token tok = true ->
  (2 <= String.length tok)%nat ->
  fullmatch FLOAT_PATTERN x = true ->
  fullmatch FLOAT_PATTERN y = true ->
  fullmatch FLOAT_PATTERN z = true ->
  exists fx fy fz,
    float_of_string x = Ok fx /\ float_of_string y = Ok fy /\ float_of_string z = Ok fz
    /\ from_xyz (tok ++ " " ++ x ++ " " ++ y ++ " " ++ z)
       = Ok (mkGeometry [mkElement (last_char tok) fx fy fz] None)
    /\ String.length (last_char tok) = 1%nat
    /\ last_char tok <> tok.
Proof.
  intros Htok Hlen Hx Hy Hz.
  apply fullmatch_float_text in Hx, Hy, Hz.
  assert (Hne : tok <> "") by (intros ->; cbn in Hlen; lia).
  destruct (float_of_string_float_text x Hx) as [fx Hfx].
  destruct (float_of_string_float_text y Hy) as [fy Hfy].
  destruct (float_of_string_float_text z Hz) as [fz Hfz].
  exists fx, fy, fz.
  split; [exact Hfx |]. split; [exact Hfy |]. split; [exact Hfz |].
  split; [| split].
  - unfold from_xyz. rewrite (findall_token_line tok x y z Htok Hne Hx Hy Hz).
    cbn [mapM from_tuple]. rewrite Hfx, Hfy, Hfz. reflexivity.
  - now apply length_last_char.
  - intros H. pose proof (length_last_char tok Hne) as H1. rewrite H in H1. lia.
Qed.

Lemma multi_letter_symbol_keeps_last_letter_witness :
  exists fx fy fz,
    float_of_string "0.0" = Ok fx /\ float_of_string "0.0" = Ok fy
    /\ float_of_string "0.0" = Ok fz
    /\ from_xyz ("Na" ++ " " ++ "0.0" ++ " " ++ "0.0" ++ " " ++ "0.0")
       = Ok (mkGeometry [mkElement (last_char "Na") fx fy fz] None)
    /\ String.length (last_char "Na") = 1%nat
    /\ last_char "Na" <> "Na".
Proof.
  apply (multi_letter_symbol_keeps_last_letter "Na" "0.0" "0.0" "0.0");
    [reflexivity | cbn; lia | reflexivity | reflexivity | reflexivity].
Defined.

(** The example of the claim: [Na 0.0 0.0 0.0] yields an atom named [a]. *)
Lemma sodium_line_parses_to_a :
  from_xyz "Na 0.0 0.0 0.0" = Ok (mkGeometry [mkElement "a" zero zero zero] None).
Proof. vm_compute. reflexivity. Qed.

(** * Further properties of the code *)

(** ** [mapM] *)

Lemma mapM_ok {A B : Type} (f : A -> result B) (l : list A) :
  (forall a, In a l -> exists b, f a = Ok b) ->
  exists bs, mapM f l = Ok bs.
Proof.
  induction l as [|a l IH]; intros H; [now exists [] |].
  destruct (H a (or_introl eq_refl)) as [b Hb].
  destruct IH as [bs Hbs]; [intros a' Ha'; apply H; now right |].
  exists (b :: bs). cbn [mapM bind]. now rewrite Hb, Hbs.
Qed.

Lemma mapM_app {A B : Type} (f : A -> result B) (l1 l2 : list A) (b1 b2 : list B) :
  mapM f l1 = Ok b1 -> mapM f l2 = Ok b2 ->
  mapM f (l1 ++ l2)%list = Ok (b1 ++ b2)%list.
Proof.
  revert b1. induction l1 as [|a l1 IH]; intros b1 H1 H2.
  - injection H1 as <-. exact H2.
  - cbn [mapM app bind] in *. destruct (f a) as [b|e]; [| discriminate].
    cbn [bind] in *. destruct (mapM f l1) as [bs|e]; [| discriminate].
    cbn [bind] in H1. injection H1 as <-.
    now rewrite (IH bs eq_refl H2).
Qed.

Lemma mapM_in {A B : Type} (f : A -> result B) (l : list A) (bs : list B) (b : B) :
  mapM f l = Ok bs -> In b bs -> exists a, In a l /\ f a = Ok b.
Proof.
  revert bs. induction l as [|a l IH]; intros bs H Hb.
  - injection H as <-. destruct Hb.
  - cbn [mapM bind] in H. destruct (f a) as [b'|e] eqn:Ea; [| discriminate].
    cbn [bind] in H. destruct (mapM f l) as [bs'|e]; [| discriminate].
    cbn [bind] in H. injection H as <-.
    destruct Hb as [<-|Hb].
    + exists a. split; [now left | exact Ea].
    + destruct (IH bs' eq_refl Hb) as [a' [Ha' Hf]]. exists a'. split; [now right | exact Hf].
Qed.

Lemma mapM_length {A B : Type} (f : A -> result B) (l : list A) (bs : list B) :
  mapM f l = Ok bs -> List.length bs = List.length l.
Proof.
  revert bs. induction l as [|a l IH]; intros bs H.
  - now injection H as <-.
  - cbn [mapM bind] in H. destruct (f a) as [b'|e]; [| discriminate].
    cbn [bind] in H. destruct (mapM f l) as [bs'|e]; [| discriminate].
    cbn [bind] in H. injection H as <-. cbn [List.length]. now rewrite (IH bs' eq_refl).
Qed.

(** ** [Geometry.from_xyz] on every text *)

Lemma from_tuple_of_match (c : ascii) (sx sy sz : string) :
  float_text sx -> float_text sy -> float_text sz ->
  exists fx fy fz,
    float_of_string sx = Ok fx /\ float_of_string sy = Ok fy /\ float_of_string sz = Ok fz
    /\ from_tuple [chr c; sx; sy; sz] = Ok (mkElement (chr c) fx fy fz).
Proof.
  intros Hx Hy Hz.
  destruct (float_of_string_float_text sx Hx) as [fx Hfx].
  destruct (float_of_string_float_text sy Hy) as [fy Hfy].
  destruct (float_of_string_float_text sz Hz) as [fz Hfz].
  exists fx, fy, fz. cbn [from_tuple]. rewrite Hfx, Hfy, Hfz. now repeat split.
Qed.

(** X1. [from_xyz] never raises: whatever the text, every tuple the pattern
    captures converts, so the result is a geometry with one atom per match
    and the charge unset. *)
Theorem from_xyz_never_raises (text : string) :
  exists g, from_xyz text = Ok g
            /\ charge g = None
            /\ List.length (atoms g) = List.length (Re.findall XYZ_PATTERN text).
Proof.
  unfold from_xyz.
  destruct (mapM_ok from_tuple (Re.findall XYZ_PATTERN text)) as [es Hes].
  - intros g Hg.
    apply findall_xyz_sound in Hg as (pre & c & sx & sy & sz & post & _ & Hx & Hy & Hz & _ & ->).
    destruct (from_tuple_of_match c sx sy sz Hx Hy Hz) as (fx & fy & fz & _ & _ & _ & H).
    eexists. exact H.
  - exists (mkGeometry es None). rewrite Hes. cbn [bind charge atoms].
    repeat split. exact (mapM_length _ _ _ Hes).
Qed.

(** X2. No partial or invented atom: every atom of the parsed geometry
    stands in the text as one word character followed by three texts of the
    form of [FLOAT_PATTERN], single spaces between them; the atom's name is
    that one character and its coordinates are [float] of those texts. *)
Theorem from_xyz_atoms_stand_in_text (text : string) (g : Geometry) (e : Element) :
  from_xyz text = Ok g ->
  In e (atoms g) ->
  exists pre c sx sy sz post,
    text = pre ++ (chr c ++ " " ++ sx ++ " " ++ sy ++ " " ++ sz) ++ post
    /\ Re.in_cls Re.word c = true
    /\ float_text sx /\ float_text sy /\ float_text sz
    /\ e = mkElement (chr c) (x e) (y e) (z e)
    /\ float_of_string sx = Ok (x e)
    /\ float_of_string sy = Ok (y e)
    /\ float_of_string sz = Ok (z e).
Proof.
  unfold from_xyz. intros H He.
  destruct (mapM from_tuple (Re.findall XYZ_PATTERN text)) as [es|] eqn:Hes; [| discriminate].
  cbn [bind] in H. injection H as <-. cbn [atoms] in He.
  destruct (mapM_in _ _ _ _ Hes He) as [t [Ht Hf]].
  apply findall_xyz_sound in Ht as (pre & c & sx & sy & sz & post & Hc & Hx & Hy & Hz & -> & ->).
  destruct (from_tuple_of_match c sx sy sz Hx Hy Hz) as (fx & fy & fz & Hfx & Hfy & Hfz & H).
  rewrite H in Hf. injection Hf as <-. cbn [x y z].
  exists pre, c, sx, sy, sz, post. now repeat split.
Qed.

Lemma from_xyz_atoms_stand_in_text_witness :
  exists pre c sx sy sz post,
    h_xyz = pre ++ (chr c ++ " " ++ sx ++ " " ++ sy ++ " " ++ sz) ++ post
    /\ Re.in_cls Re.word c = true
    /\ float_text sx /\ float_text sy /\ float_text sz
    /\ mkElement "H" zero zero zero
       = mkElement (chr c) (x (mkElement "H" zero zero zero))
           (y (mkElement "H" zero zero zero)) (z (mkElement "H" zero zero zero))
    /\ float_of_string sx = Ok (x (mkElement "H" zero zero zero))
    /\ float_of_string sy = Ok (y (mkElement "H" zero zero zero))
    /\ float_of_string sz = Ok (z (mkElement "H" zero zero zero)).
Proof.
  apply (from_xyz_atoms_stand_in_text h_xyz
           (mkGeometry [mkElement "H" zero zero zero] None)
           (mkElement "H" zero zero zero));
    [vm_compute; reflexivity | left; reflexivity].
Defined.

(** X3. Parsing is local to lines: the atoms of two texts joined by a
    newline are the atoms of the first followed by those of the second. *)
Theorem from_xyz_of_joined_texts (a b : string) (ga gb : Geometry) :
  from_xyz a = Ok ga ->
  from_xyz b = Ok gb ->
  from_xyz (a ++ nl ++ b) = Ok (mkGeometry (atoms ga ++ atoms gb) None).
Proof.
  unfold from_xyz. intros Ha Hb.
  destruct (mapM from_tuple (Re.findall XYZ_PATTERN a)) as [ea|] eqn:Ea; [| discriminate].
  destruct (mapM from_tuple (Re.findall XYZ_PATTERN b)) as [eb|] eqn:Eb; [| discriminate].
  cbn [bind] in Ha, Hb. injection Ha as <-. injection Hb as <-. cbn [atoms].
  change (a ++ nl ++ b) with (a ++ String newline b).
  rewrite (findall_app_avoid XYZ_PATTERN newline xyz_avoids_newline xyz_needs_text a b).
  now rewrite (mapM_app from_tuple _ _ _ _ Ea Eb).
Qed.

Lemma from_xyz_of_joined_texts_witness :
  from_xyz (h_xyz ++ nl ++ "Na 0.0 0.0 0.0")
  = Ok (mkGeometry
          (atoms (mkGeometry [mkElement "H" zero zero zero] None)
           ++ atoms (mkGeometry [mkElement "a" zero zero zero] None)) None).
Proof.
  apply (from_xyz_of_joined_texts h_xyz "Na 0.0 0.0 0.0"
           (mkGeometry [mkElement "H" zero zero zero] None)
           (mkGeometry [mkElement "a" zero zero zero] None));
    vm_compute; reflexivity.
Defined.

(** X4. A line made of one word character, a space, and three texts that
    [FLOAT_PATTERN] matches, with single spaces between them, parses to
    exactly one atom, named by that character. *)
Theorem one_letter_line_parses (c : ascii) (sx sy sz : string) :
  Re.in_cls Re.word c = true ->
  fullmatch FLOAT_PATTERN sx = true ->
  fullmatch FLOAT_PATTERN sy = true ->
  fullmatch FLOAT_PATTERN sz = true ->
  exists fx fy fz,
    float_of_string sx = Ok fx /\ float_of_string sy = Ok fy /\ float_of_string sz = Ok fz
    /\ from_xyz (chr c ++ " " ++ sx ++ " " ++ sy ++ " " ++ sz)
       = Ok (mkGeometry [mkElement (chr c) fx fy fz] None).
Proof.
  intros Hc Hx Hy Hz. apply fullmatch_float_text in Hx, Hy, Hz.
  destruct (from_tuple_of_match c sx sy sz Hx Hy Hz) as (fx & fy & fz & Hfx & Hfy & Hfz & H).
  exists fx, fy, fz. repeat split; trivial.
  unfold from_xyz.
  rewrite (findall_token_line (chr c) sx sy sz); trivial.
  - cbn [last_char chr mapM bind]. fold (chr c). rewrite H. reflexivity.
  - cbn [word_token chr string_forallb]. now rewrite Hc.
  - discriminate.
Qed.

Lemma one_letter_line_parses_witness :
  exists fx fy fz,
    float_of_string "-1.5" = Ok fx /\ float_of_string "+.25" = Ok fy
    /\ float_of_string "0.7414" = Ok fz
    /\ from_xyz (chr "C" ++ " " ++ "-1.5" ++ " " ++ "+.25" ++ " " ++ "0.7414")
       = Ok (mkGeometry [mkElement (chr "C") fx fy fz] None).
Proof.
  apply (one_letter_line_parses "C" "-1.5" "+.25" "0.7414"); reflexivity.
Defined.

(** ** NWChem: [geometry_from_xyz] *)

Lemma concat_map_singleton {A : Type} (f : A -> list A) (l : list A) :
  (forall a, In a l -> f a = [a]) -> List.concat (map f l) = l.
Proof.
  induction l as [|a l IH]; intros H; [reflexivity |].
  cbn [map List.concat]. rewrite (H a (or_introl eq_refl)), IH; [reflexivity |].
  intros b Hb. apply H. now right.
Qed.

(** The pattern finds in the geometry block the tuples it found in the
    text the block was made from. *)
Lemma findall_geometry_from_xyz (xyz : string) :
  Re.findall XYZ_PATTERN (geometry_from_xyz xyz) = Re.findall XYZ_PATTERN xyz.
Proof.
  unfold geometry_from_xyz. rewrite findall_xyz_lines, map_map.
  apply concat_map_singleton. intros g Hg.
  apply findall_xyz_sound in Hg as (pre & c & sx & sy & sz & post & Hc & Hx & Hy & Hz & _ & ->).
  change (join " " [chr c; sx; sy; sz]) with (chr c ++ " " ++ sx ++ " " ++ sy ++ " " ++ sz).
  rewrite (findall_token_line (chr c) sx sy sz); trivial.
  - cbn [word_token chr string_forallb]. now rewrite Hc.
  - discriminate.
Qed.

(** X5. [geometry_from_xyz] is idempotent, and the geometry block it
    returns parses, with [Geometry.from_xyz], to the same geometry as the
    text it was given: header, comment and charge lines are dropped and
    nothing else is lost. *)
Theorem geometry_from_xyz_keeps_atoms (xyz : string) :
  geometry_from_xyz (geometry_from_xyz xyz) = geometry_from_xyz xyz
  /\ from_xyz (geometry_from_xyz xyz) = from_xyz xyz.
Proof.
  split.
  - unfold geometry_from_xyz at 1 3. fold (geometry_from_xyz xyz).
    now rewrite findall_geometry_from_xyz.
  - unfold from_xyz. now rewrite findall_geometry_from_xyz.
Qed.

(** X6. A text in which no line has three decimal points gives an empty
    geometry block. *)
Theorem geometry_from_xyz_without_atoms (ls : list string) :
  Forall (fun l => (count_char "." l < 3)%nat) ls ->
  geometry_from_xyz (join nl ls) = "".
Proof.
  intros H. unfold geometry_from_xyz. rewrite findall_xyz_lines.
  assert (E : List.concat (map (Re.findall XYZ_PATTERN) ls) = []).
  { induction H as [|l ls Hl _ IH]; [reflexivity |].
    cbn [map List.concat]. rewrite IH, app_nil_r.
    exact (findall_from_nil_of_count "." XYZ_PATTERN l 0 Hl). }
  now rewrite E.
Qed.

Lemma geometry_from_xyz_without_atoms_witness :
  geometry_from_xyz (join nl ["2"; "title"; "C 1 2 3"; "$set"; "chrg 1"; "$end"]) = "".
Proof.
  apply (geometry_from_xyz_without_atoms ["2"; "title"; "C 1 2 3"; "$set"; "chrg 1"; "$end"]).
  repeat (constructor; [cbn; lia |]). constructor.
Defined.

(** ** The characters of rendered numbers *)

Lemma string_forallb_count (p : ascii -> bool) (c : ascii) (s : string) :
  string_forallb p s = true -> p c = false -> count_char c s = 0%nat.
Proof.
  intros Hs Hc. induction s as [|d s IH]; [reflexivity |].
  cbn [string_forallb] in Hs. apply andb_prop in Hs as [Hd Hs].
  cbn [count_char]. rewrite (IH Hs).
  destruct (Ascii.eqb_spec c d) as [->|]; [congruence | reflexivity].
Qed.

Lemma string_of_uint_chars (d : Decimal.uint) :
  string_forallb repr_char (NilEmpty.string_of_uint d) = true.
Proof. induction d; cbn [NilEmpty.string_of_uint string_forallb]; try rewrite IHd; reflexivity. Qed.

Lemma str_int_chars (n : Z) : string_forallb repr_char (str_int n) = true.
Proof.
  unfold str_int, NilZero.string_of_int.
  destruct (Z.to_int n) as [d|d]; [| cbn [string_forallb]; change (repr_char "-") with true;
                                     cbn [andb]];
    unfold NilZero.string_of_uint; destruct d; try reflexivity;
    apply (string_of_uint_chars (_ d)).
Qed.

Lemma substring_chars (p : ascii -> bool) (s : string) (n m : nat) :
  string_forallb p s = true -> string_forallb p (substring n m s) = true.
Proof.
  revert n m. induction s as [|c s IH]; intros n m Hs.
  - destruct n, m; reflexivity.
  - cbn [string_forallb] in Hs. apply andb_prop in Hs as [Hc Hs].
    destruct n as [|n].
    + destruct m as [|m]; [reflexivity |].
      cbn [substring string_forallb]. now rewrite Hc, (IH 0%nat m Hs).
    + cbn [substring]. now apply IH.
Qed.

Lemma zeros_chars (n : Z) : string_forallb repr_char (zeros n) = true.
Proof.
  unfold zeros. induction (Z.to_nat n) as [|k IH]; [reflexivity |].
  cbn [repeat_char string_forallb]. now rewrite IH.
Qed.

Lemma exp_suffix_chars (ex : Z) : string_forallb repr_char (exp_suffix ex) = true.
Proof.
  unfold exp_suffix, pad2. rewrite !string_forallb_app.
  destruct (ex <? 0); destruct (String.length (str_int (Z.abs ex)) <? 2)%nat;
    rewrite ?string_forallb_app, str_int_chars; reflexivity.
Qed.

Lemma repr_digits_chars (ds : string) (decpt : Z) :
  string_forallb repr_char ds = true ->
  string_forallb repr_char (repr_digits ds decpt) = true.
Proof.
  intros Hds. unfold repr_digits.
  destruct ((decpt <? -3) || (16 <? decpt))%bool.
  - destruct ds as [|c rest]; [reflexivity |].
    cbn [string_forallb] in Hds. apply andb_prop in Hds as [Hc Hrest].
    rewrite !string_forallb_app, exp_suffix_chars.
    cbn [chr string_forallb]. rewrite Hc.
    destruct (rest =? "")%string; [reflexivity |].
    rewrite string_forallb_app, Hrest. reflexivity.
  - destruct (decpt <=? 0).
    + rewrite !string_forallb_app, zeros_chars, Hds. reflexivity.
    + destruct (Z.of_nat (String.length ds) <=? decpt).
      * rewrite !string_forallb_app, zeros_chars, Hds. reflexivity.
      * rewrite !string_forallb_app, !substring_chars; trivial.
Qed.

(** [repr] of a float is made of digits, a point, signs, [e], and the
    letters of [inf] and [nan]. *)
Lemma float_repr_chars (v : float) : string_forallb repr_char (float_repr v) = true.
Proof.
  destruct v as [[]|[]| |neg m e]; try reflexivity.
  unfold float_repr.
  destruct (ratio_of m e) as [P Q].
  destruct (shortest 16 neg m e (floor_log10 P Q) 1) as [d0 x0].
  destruct (strip_zeros 20 d0 x0) as [d x1].
  rewrite string_forallb_app, repr_digits_chars by apply str_int_chars.
  destruct neg; reflexivity.
Qed.

Lemma repr_chars_no_newline (s : string) :
  string_forallb repr_char s = true -> no_newline s = true.
Proof.
  unfold no_newline. induction s as [|c s IH]; [reflexivity |].
  cbn [string_forallb]. intros H. apply andb_prop in H as [Hc Hs].
  rewrite (IH Hs), andb_true_r.
  destruct (Ascii.eqb_spec c newline) as [->|]; [discriminate | reflexivity].
Qed.

(** ** Parsing what [to_xyz] writes *)

Lemma match_at_xyz_atom_rest (c : ascii) (sx sy sz rest : string) :
  Re.in_cls Re.word c = true ->
  float_text sx -> float_text sy -> float_text sz ->
  starts_in Re.digit rest = false ->
  Re.match_at XYZ_PATTERN (chr c ++ " " ++ sx ++ " " ++ sy ++ " " ++ sz ++ rest)
  = Some (chr c ++ " " ++ sx ++ " " ++ sy ++ " " ++ sz, [chr c; sx; sy; sz], rest).
Proof.
  intros Hc Hx Hy Hz Hrest. unfold XYZ_PATTERN.
  apply (match_at_cat _ _ _ (chr c) (" " ++ sx ++ " " ++ sy ++ " " ++ sz ++ rest)
           _ rest [chr c] [sx; sy; sz]).
  { unfold Re.match_at. cbn [chr append Re.matches]. now rewrite Hc. }
  apply (match_at_cat _ _ _ " " (sx ++ " " ++ sy ++ " " ++ sz ++ rest) _ rest [] [sx; sy; sz]);
    [reflexivity |].
  apply (match_at_cat _ _ _ sx (" " ++ sy ++ " " ++ sz ++ rest) _ rest [sx] [sy; sz]);
    [now apply match_at_float |].
  apply (match_at_cat _ _ _ " " (sy ++ " " ++ sz ++ rest) _ rest [] [sy; sz]); [reflexivity |].
  apply (match_at_cat _ _ _ sy (" " ++ sz ++ rest) _ rest [sy] [sz]);
    [now apply match_at_float |].
  apply (match_at_cat _ _ _ " " (sz ++ rest) sz rest [] [sz]); [reflexivity |].
  now apply match_at_float.
Qed.

(** The scan resumes where the previous match ended. *)
Lemma findall_from_skip (r : Re.regex) (a b : string) :
  Re.findall_from r (String.length a) (a ++ b) = Re.findall_from r 0 b.
Proof.
  induction a as [|c a IH]; [reflexivity |].
  cbn [String.length append Re.findall_from]. exact IH.
Qed.

Lemma findall_atom_then (c : ascii) (sx sy sz rest : string) :
  Re.in_cls Re.word c = true ->
  float_text sx -> float_text sy -> float_text sz ->
  starts_in Re.digit rest = false ->
  Re.findall XYZ_PATTERN (chr c ++ " " ++ sx ++ " " ++ sy ++ " " ++ sz ++ rest)
  = [chr c; sx; sy; sz] :: Re.findall XYZ_PATTERN rest.
Proof.
  intros Hc Hx Hy Hz Hrest. unfold Re.findall.
  pose proof (match_at_xyz_atom_rest c sx sy sz rest Hc Hx Hy Hz Hrest) as Hm.
  change (chr c ++ " " ++ sx ++ " " ++ sy ++ " " ++ sz ++ rest)
    with (String c (" " ++ sx ++ " " ++ sy ++ " " ++ sz ++ rest)) in *.
  cbn [Re.findall_from]. rewrite Hm. f_equal.
  change (chr c ++ " " ++ sx ++ " " ++ sy ++ " " ++ sz)
    with (String c (" " ++ sx ++ " " ++ sy ++ " " ++ sz)).
  cbn [String.length].
  match goal with
  | |- context [(S ?n - 1)%nat] => replace (S n - 1)%nat with n by lia
  end.
  replace (" " ++ sx ++ " " ++ sy ++ " " ++ sz ++ rest)
    with ((" " ++ sx ++ " " ++ sy ++ " " ++ sz) ++ rest)
    by (rewrite !append_assoc; reflexivity).
  apply findall_from_skip.
Qed.

Lemma findall_atom_line (e : Element) :
  xyz_printable e = true ->
  Re.findall XYZ_PATTERN (atom_line (name e, x e, y e, z e)) = [atom_fields e].
Proof.
  unfold xyz_printable, prints_fixed, atom_fields. intros H.
  apply andb_prop in H as [H Hz]. apply andb_prop in H as [H Hy].
  apply andb_prop in H as [Hn Hx].
  apply fullmatch_float_text in Hx, Hy, Hz.
  destruct (name e) as [|c [|? ?]]; try discriminate.
  unfold atom_line, element_to_xyz. rewrite !append_assoc.
  change (String c "") with (chr c).
  now rewrite (findall_atom_then c _ _ _ " " Hn Hx Hy Hz eq_refl).
Qed.

Lemma findall_plain_line (l : string) :
  (count_char " " l < 3)%nat -> Re.findall XYZ_PATTERN l = [].
Proof. exact (findall_from_nil_of_count " " XYZ_PATTERN l 0). Qed.

Lemma findall_charge_block (c : option Z) :
  List.concat (map (Re.findall XYZ_PATTERN) (charge_block c)) = [].
Proof.
  unfold charge_block. cbn [map List.concat].
  rewrite (findall_plain_line ("chrg " ++ str_charge c)); [reflexivity |].
  rewrite count_char_app.
  assert (count_char " " (str_charge c) = 0%nat) as ->.
  { destruct c as [n|]; [| reflexivity].
    exact (string_forallb_count repr_char " " _ (str_int_chars n) eq_refl). }
  cbn. lia.
Qed.

Lemma findall_atom_lines (es : list Element) :
  forallb xyz_printable es = true ->
  List.concat (map (Re.findall XYZ_PATTERN)
                 (map atom_line (map (fun e => (name e, x e, y e, z e)) es)))
  = map atom_fields es.
Proof.
  induction es as [|e es IH]; intros H; [reflexivity |].
  cbn [forallb] in H. apply andb_prop in H as [He Hes].
  cbn [map List.concat]. now rewrite (findall_atom_line e He), (IH Hes).
Qed.

(** What the pattern finds in the serialized text: the fields of each atom,
    and nothing in the count, title and charge lines. *)
Lemma findall_to_xyz (g : Geometry) :
  forallb xyz_printable (atoms g) = true ->
  Re.findall XYZ_PATTERN (to_xyz g) = map atom_fields (atoms g).
Proof.
  intros H. unfold to_xyz, coordinates_to_xyz, xyz_lines, coordinates.
  rewrite findall_xyz_lines, !map_app, !concat_app.
  rewrite (findall_atom_lines _ H).
  cbn [map List.concat].
  rewrite (findall_plain_line (str_int _)), (findall_plain_line "title").
  - destruct (ne_zero (charge g)).
    + rewrite findall_charge_block. cbn [app]. now rewrite app_nil_r.
    + cbn [map List.concat app]. now rewrite app_nil_r.
  - cbn. lia.
  - rewrite (string_forallb_count repr_char " " _ (str_int_chars _) eq_refl). lia.
Qed.

Lemma float_eqb_eq (v w : float) : float_eqb v w = true -> v = w.
Proof.
  destruct v as [a|a| |a m e], w as [b|b| |b m' e']; cbn [float_eqb]; try discriminate;
    intros H.
  - now apply Bool.eqb_prop in H as ->.
  - now apply Bool.eqb_prop in H as ->.
  - reflexivity.
  - apply andb_prop in H as [H He]. apply andb_prop in H as [Ha Hm].
    apply Bool.eqb_prop in Ha as ->. apply Pos.eqb_eq in Hm as ->.
    now apply Z.eqb_eq in He as ->.
Qed.

Lemma from_tuple_atom_fields (e : Element) :
  reads_back_as (x e) = true -> reads_back_as (y e) = true -> reads_back_as (z e) = true ->
  from_tuple (atom_fields e) = Ok e.
Proof.
  unfold reads_back_as, atom_fields. intros Hx Hy Hz. cbn [from_tuple].
  destruct (float_of_string (float_repr (x e))) as [vx|]; [| discriminate].
  destruct (float_of_string (float_repr (y e))) as [vy|]; [| discriminate].
  destruct (float_of_string (float_repr (z e))) as [vz|]; [| discriminate].
  apply float_eqb_eq in Hx as ->, Hy as ->, Hz as ->.
  now destruct e.
Qed.

(** X7. Round trip. For a geometry in which every name is a single word
    character and every coordinate prints in fixed notation and reads back
    as itself, parsing the serialized text returns the same atoms, in order,
    with the charge unset; this holds whatever the charge is, the charge
    block being skipped. *)
Theorem from_xyz_to_xyz (g : Geometry) :
  forallb xyz_safe (atoms g) = true ->
  from_xyz (to_xyz g) = Ok (mkGeometry (atoms g) None).
Proof.
  intros H. unfold from_xyz.
  rewrite findall_to_xyz.
  - assert (E : mapM from_tuple (map atom_fields (atoms g)) = Ok (atoms g)).
    { induction (atoms g) as [|e es IH]; [reflexivity |].
      cbn [forallb] in H. apply andb_prop in H as [He Hes].
      unfold xyz_safe in He.
      apply andb_prop in He as [He Hz]. apply andb_prop in He as [He Hy].
      apply andb_prop in He as [_ Hx].
      cbn [map mapM]. rewrite (from_tuple_atom_fields e Hx Hy Hz), (IH Hes). reflexivity. }
    now rewrite E.
  - apply forallb_forall. intros e He.
    rewrite forallb_forall in H. specialize (H e He).
    unfold xyz_safe in H. apply andb_prop in H as [H _].
    apply andb_prop in H as [H _]. now apply andb_prop in H as [H _].
Qed.

Lemma from_xyz_to_xyz_witness :
  from_xyz (to_xyz (set_charge (Some (-1)) h2_geometry))
  = Ok (mkGeometry (atoms (set_charge (Some (-1)) h2_geometry)) None).
Proof.
  apply (from_xyz_to_xyz (set_charge (Some (-1)) h2_geometry)). vm_compute. reflexivity.
Defined.

(** X8. From serialized text to the NWChem geometry block: for a geometry
    whose names are single word characters and whose coordinates print in
    fixed notation, [geometry_from_xyz (to_xyz g)] is the atoms rendered by
    [element_to_xyz], one per line, without count, title, trailing spaces or
    charge block. *)
Theorem geometry_from_xyz_of_to_xyz (g : Geometry) :
  forallb xyz_printable (atoms g) = true ->
  geometry_from_xyz (to_xyz g)
  = join nl (map (fun e => element_to_xyz (name e) (x e) (y e) (z e)) (atoms g)).
Proof.
  intros H. unfold geometry_from_xyz. rewrite (findall_to_xyz g H), map_map.
  reflexivity.
Qed.

Lemma geometry_from_xyz_of_to_xyz_witness :
  geometry_from_xyz (to_xyz (set_charge (Some 2) h2_geometry))
  = join nl (map (fun e => element_to_xyz (name e) (x e) (y e) (z e))
               (atoms (set_charge (Some 2) h2_geometry))).
Proof.
  apply (geometry_from_xyz_of_to_xyz (set_charge (Some 2) h2_geometry)).
  vm_compute. reflexivity.
Defined.

(** ** The lines of the serialized text *)

Lemma split_lines_no_newline (l : string) :
  no_newline l = true -> split_lines l = [l].
Proof.
  induction l as [|c l IH]; intros H; [reflexivity |].
  cbn [no_newline string_forallb] in H. apply andb_prop in H as [Hc Hl].
  apply negb_true_iff in Hc. cbn [split_lines]. rewrite Hc.
  now rewrite (IH Hl).
Qed.

Lemma split_lines_join (ls : list string) :
  ls <> [] ->
  forallb no_newline ls = true ->
  split_lines (join nl ls) = ls.
Proof.
  induction ls as [|l ls IH]; intros Hne H; [congruence |].
  cbn [forallb] in H. apply andb_prop in H as [Hl Hls].
  destruct ls as [|l' ls].
  - now apply split_lines_no_newline.
  - change (join nl (l :: l' :: ls)) with (l ++ nl ++ join nl (l' :: ls)).
    rewrite (split_lines_app_nl _ _ Hl), IH; [reflexivity | discriminate | exact Hls].
Qed.

Lemma join_app (sep : string) (a b : list string) :
  a <> [] -> b <> [] ->
  join sep (a ++ b)%list = join sep a ++ sep ++ join sep b.
Proof.
  intros Ha Hb. induction a as [|l a IH]; [congruence |].
  destruct a as [|l' a].
  - destruct b as [|l'' b]; [congruence | reflexivity].
  - change (join sep ((l :: l' :: a) ++ b)%list)
      with (l ++ sep ++ join sep ((l' :: a) ++ b)%list).
    rewrite IH by discriminate.
    change (join sep (l :: l' :: a)) with (l ++ sep ++ join sep (l' :: a)).
    now rewrite !append_assoc.
Qed.

Lemma atom_line_no_newline (e : Element) :
  no_newline (name e) = true ->
  no_newline (atom_line (name e, x e, y e, z e)) = true.
Proof.
  intros H. unfold atom_line, element_to_xyz.
  rewrite !no_newline_app, H,
    !(repr_chars_no_newline _ (float_repr_chars _)). reflexivity.
Qed.

Lemma xyz_lines_no_newline (g : Geometry) :
  forallb (fun e => no_newline (name e)) (atoms g) = true ->
  forallb no_newline (xyz_lines (List.length (atoms g)) (charge g) (coordinates g)) = true.
Proof.
  intros H. unfold xyz_lines, coordinates. rewrite !forallb_app.
  cbn [forallb]. rewrite (repr_chars_no_newline _ (str_int_chars _)).
  assert (Hat : forallb no_newline
                  (map atom_line (map (fun e => (name e, x e, y e, z e)) (atoms g))) = true).
  { induction (atoms g) as [|e es IH]; [reflexivity |].
    cbn [forallb] in H. apply andb_prop in H as [He Hes].
    cbn [map forallb]. now rewrite (atom_line_no_newline e He), (IH Hes). }
  rewrite Hat. cbn [andb].
  destruct (ne_zero (charge g)); [| reflexivity].
  unfold charge_block. cbn [forallb]. rewrite no_newline_app.
  destruct (charge g) as [n|]; [| reflexivity].
  cbn [str_charge]. now rewrite (repr_chars_no_newline _ (str_int_chars n)).
Qed.

(** X9. When no atom name contains a line break, the serialized text splits
    at its newlines into exactly the lines the serializer built: the count,
    the title, one line per atom and, unless the charge is the integer 0,
    the three lines of the charge block; so it has [2 + n] or [5 + n]
    lines. *)
Theorem to_xyz_lines (g : Geometry) :
  forallb (fun e => no_newline (name e)) (atoms g) = true ->
  split_lines (to_xyz g) = xyz_lines (List.length (atoms g)) (charge g) (coordinates g)
  /\ List.length (split_lines (to_xyz g))
     = (2 + List.length (atoms g) + (if ne_zero (charge g) then 3 else 0))%nat.
Proof.
  intros H.
  assert (E : split_lines (to_xyz g)
              = xyz_lines (List.length (atoms g)) (charge g) (coordinates g)).
  { unfold to_xyz, coordinates_to_xyz. apply split_lines_join.
    - unfold xyz_lines. discriminate.
    - now apply xyz_lines_no_newline. }
  split; [exact E |]. rewrite E. unfold xyz_lines, coordinates.
  rewrite !length_app, !length_map. cbn [List.length].
  destruct (ne_zero (charge g)); cbn [charge_block List.length]; lia.
Qed.

Lemma to_xyz_lines_witness :
  split_lines (to_xyz sodium)
  = xyz_lines (List.length (atoms sodium)) (charge sodium) (coordinates sodium)
  /\ List.length (split_lines (to_xyz sodium))
     = (2 + List.length (atoms sodium) + (if ne_zero (charge sodium) then 3 else 0))%nat.
Proof. apply (to_xyz_lines sodium). reflexivity. Defined.

(** X10. The text of a geometry whose charge is not the integer 0 is the
    text of the same atoms with charge 0, followed by a newline and the
    block [$set], [chrg <charge>], [$end]. *)
Theorem to_xyz_appends_charge_block (g : Geometry) :
  ne_zero (charge g) = true ->
  to_xyz g
  = to_xyz (set_charge (Some 0) g) ++ nl
    ++ "$set" ++ nl ++ "chrg " ++ str_charge (charge g) ++ nl ++ "$end".
Proof.
  intros H. unfold to_xyz, coordinates_to_xyz, xyz_lines, coordinates.
  cbn [atoms charge set_charge ne_zero Z.eqb negb]. rewrite H, app_nil_r.
  rewrite app_assoc, join_app; [reflexivity | discriminate | discriminate].
Qed.

Lemma to_xyz_appends_charge_block_witness :
  to_xyz (set_charge (Some (-1)) h2_geometry)
  = to_xyz (set_charge (Some 0) (set_charge (Some (-1)) h2_geometry)) ++ nl
    ++ "$set" ++ nl ++ "chrg " ++ str_charge (charge (set_charge (Some (-1)) h2_geometry))
    ++ nl ++ "$end".
Proof.
  apply (to_xyz_appends_charge_block (set_charge (Some (-1)) h2_geometry)). reflexivity.
Defined.

(** ** [Geometry.from_mol] *)

Lemma coordinates_of_tuples (cs : list (string * float * float * float)) (q : option Z) :
  coordinates (mkGeometry (map element_of_tuple cs) q) = cs.
Proof.
  unfold coordinates. cbn [atoms]. rewrite map_map.
  induction cs as [|[[[n vx] vy] vz] cs IH]; [reflexivity |].
  cbn [map element_of_tuple name x y z]. now rewrite IH.
Qed.

(** X11. When the molecule's coordinates and formal charge are obtained,
    [from_mol] returns a geometry with one atom per coordinate tuple, whose
    [coordinates] are those tuples in order and whose charge is the formal
    charge; its XYZ text is [coordinates_to_xyz] of them. *)
Theorem from_mol_keeps_coordinates {Mol : Type}
    (mol_to_coordinates : Mol -> Z -> result (list (string * float * float * float)))
    (GetFormalCharge : Mol -> result Z)
    (m : Mol) (num_confs : Z) (cs : list (string * float * float * float)) (q : Z) :
  mol_to_coordinates m num_confs = Ok cs ->
  GetFormalCharge m = Ok q ->
  exists g,
    from_mol mol_to_coordinates GetFormalCharge m num_confs = Ok g
    /\ coordinates g = cs
    /\ charge g = Some q
    /\ List.length (atoms g) = List.length cs
    /\ to_xyz g = coordinates_to_xyz (List.length cs) (Some q) cs.
Proof.
  intros Hc Hq. unfold from_mol. rewrite Hc, Hq. cbn [bind].
  eexists. split; [reflexivity |].
  rewrite coordinates_of_tuples. cbn [charge atoms]. rewrite length_map.
  repeat split. unfold to_xyz. cbn [atoms charge].
  now rewrite coordinates_of_tuples, length_map.
Qed.

Lemma from_mol_keeps_coordinates_witness :
  exists g,
    from_mol (fun (_ : unit) (_ : Z) => Ok [("H", zero, zero, zero)]) (fun _ => Ok 1) tt 10
    = Ok g
    /\ coordinates g = [("H", zero, zero, zero)]
    /\ charge g = Some 1
    /\ List.length (atoms g) = List.length [("H", zero, zero, zero)]
    /\ to_xyz g
       = coordinates_to_xyz (List.length [("H", zero, zero, zero)]) (Some 1)
           [("H", zero, zero, zero)].
Proof.
  apply (from_mol_keeps_coordinates
           (fun (_ : unit) (_ : Z) => Ok [("H", zero, zero, zero)]) (fun _ => Ok 1)
           tt 10 [("H", zero, zero, zero)] 1); reflexivity.
Defined.

(** ** NWChem: every way of calling [create_input_deck] *)

(** X12. [create_input_deck] returns a deck exactly when a molecule handle
    or an explicit electron count is given: with either, filling the
    template never fails. *)
Theorem create_input_deck_succeeds_iff
    {Mol : Type} (num_electrons : Mol -> Z) (p : deck_params Mol) :
  (exists deck, returned (create_input_deck num_electrons p) = Ok deck)
  <-> (mol _ p <> None \/ num_active_el _ p <> None).
Proof.
  unfold create_input_deck, resolve_active_el.
  destruct (mol Mol p) as [m|], (num_active_el Mol p) as [n|];
    cbn [returned bind]; rewrite ?format_deck; split;
    try (intros _; eexists; reflexivity);
    try (intros _; (left + right); discriminate).
  - intros [deck H]. discriminate.
  - intros [H|H]; congruence.
Qed.

(** X13. Whenever an explicit electron count [n] is given, with or without
    a molecule handle and whether or not the counts agree, the call issues
    the one warning about ignoring the molecule and renders [n // 2]. *)
Theorem explicit_count_always_warns
    {Mol : Type} (num_electrons : Mol -> Z) (p : deck_params Mol) (n : Z) :
  num_active_el _ p = Some n ->
  create_input_deck num_electrons p
  = mkOutcome [ignoring_mol_warning]
      (Ok (deck_head p ++ electron_lines (n / 2) (n / 2) ++ deck_tail p)).
Proof.
  intros Hn. unfold create_input_deck, resolve_active_el. rewrite Hn.
  destruct (mol Mol p); cbn [bind]; now rewrite format_deck.
Qed.

Lemma explicit_count_always_warns_witness :
  create_input_deck ten_electrons (sample_params None (Some 10))
  = mkOutcome [ignoring_mol_warning]
      (Ok (deck_head (sample_params None (Some 10)) ++ electron_lines (10 / 2) (10 / 2)
           ++ deck_tail (sample_params None (Some 10)))).
Proof.
  apply (explicit_count_always_warns ten_electrons (sample_params None (Some 10)) 10).
  reflexivity.
Defined.

(** X14. With a molecule handle and no explicit count, the count is
    [num_electrons(mol)]: no warning is issued and both electron lines carry
    half of it, rounded down. *)
Theorem molecule_supplies_electron_count
    {Mol : Type} (num_electrons : Mol -> Z) (p : deck_params Mol) (m : Mol) :
  mol _ p = Some m ->
  num_active_el _ p = None ->
  create_input_deck num_electrons p
  = mkOutcome []
      (Ok (deck_head p
           ++ electron_lines (num_electrons m / 2) (num_electrons m / 2)
           ++ deck_tail p)).
Proof.
  intros Hm Hn. unfold create_input_deck, resolve_active_el. rewrite Hm, Hn.
  cbn [bind]. now rewrite format_deck.
Qed.

Lemma molecule_supplies_electron_count_witness :
  create_input_deck ten_electrons (sample_params (Some tt) None)
  = mkOutcome []
      (Ok (deck_head (sample_params (Some tt) None)
           ++ electron_lines (ten_electrons tt / 2) (ten_electrons tt / 2)
           ++ deck_tail (sample_params (Some tt) None))).
Proof.
  apply (molecule_supplies_electron_count ten_electrons (sample_params (Some tt) None) tt);
    reflexivity.
Defined.

(** ** OpenMolcas *)


(** ** NWChem: what the deck says *)

(** X15. The deck of a call that gives only the molecule name, the geometry
    block, the number of active orbitals and the electron count: every
    default is rendered, the two thresholds with one decimal and an exponent
    ([1.0e-10], [1.0e-06]), the two-electron tolerance by [str] ([1e-10]),
    and the line of [nopen] is left empty. *)
Theorem default_deck (num_electrons : unit -> Z)
    (nm geo : string) (norb n : Z) :
  create_input_deck num_electrons (default_call nm geo norb n)
  = mkOutcome [ignoring_mol_warning]
      (Ok (nl ++ "start " ++ (nm ++ "_test") ++ nl ++
           nl ++ "echo" ++ nl ++
           "memory stack 1000 mb heap 100 mb global 1000 mb noverify" ++ nl ++
           nl ++ "geometry units au" ++ nl ++
           "symmetry c1" ++ nl ++
           geo ++ nl ++
           "end" ++ nl ++
           nl ++ "basis" ++ nl ++
           "* library sto-3g" ++ nl ++
           "end" ++ nl ++
           nl ++ "charge 0" ++ nl ++
           nl ++ "scf" ++ nl ++
           "thresh 1.0e-10" ++ nl ++
           "tol2e 1e-10" ++ nl ++
           "rhf" ++ nl ++
           "singlet" ++ nl ++
           nl ++
           "end" ++ nl ++
           nl ++ "tce" ++ nl ++
           "ccsd" ++ nl ++
           "tilesize 1" ++ nl ++
           "2eorb" ++ nl ++
           "2emet 13" ++ nl ++
           "nroots 5" ++ nl ++
           "thresh 1.0e-06" ++ nl ++
           "end" ++ nl ++
           nl ++ "set tce:print_integrals T" ++ nl ++
           "set tce:qorb " ++ str_int norb ++ nl ++
           "set tce:qela " ++ str_int (n / 2) ++ nl ++
           "set tce:qelb " ++ str_int (n / 2) ++ nl ++
           nl ++ "task tce energy" ++ nl)).
Proof.
  unfold create_input_deck, resolve_active_el.
  unfold default_call, default_params.
  cbn [mol num_active_el bind]. rewrite format_deck.
  f_equal. f_equal.
  unfold deck_head, deck_tail, electron_lines.
  cbn [mol_name geometry num_active_orbitals memory
       geometry_units basis deck_charge scf_thresh scf_tol2e rhf spin nopen method
       num_tce_root tce_thresh driver].
  change (float_format_e1 (float_of_decimal false 1 (-10))) with "1.0e-10".
  change (float_repr (float_of_decimal false 1 (-10))) with "1e-10".
  change (float_format_e1 (float_of_decimal false 1 (-6))) with "1.0e-06".
  change (str_int 0) with "0". change (str_int 5) with "5".
  rewrite !append_assoc. reflexivity.
Qed.

(** X17. In every successful call the [scf] block ends with the [rhf] line,
    the [spin] line, then [nopen <k>] when [nopen] is [k] and an empty line
    when it is not given, then [end]; the [tce] block follows. *)
Theorem nopen_line
    {Mol : Type} (num_electrons : Mol -> Z) (p : deck_params Mol) (deck : string) :
  returned (create_input_deck num_electrons p) = Ok deck ->
  exists before after,
    deck = before
           ++ (rhf _ p ++ nl ++ spin _ p ++ nl
               ++ match nopen _ p with
                  | Some k => "nopen " ++ str_int k
                  | None => ""
                  end ++ nl
               ++ "end" ++ nl ++ nl ++ "tce" ++ nl)
           ++ after
    /\ before = nl ++ "start " ++ (mol_name _ p ++ "_test") ++ nl ++
                nl ++ "echo" ++ nl ++
                memory _ p ++ nl ++
                nl ++ "geometry units " ++ geometry_units _ p ++ nl ++
                "symmetry c1" ++ nl ++
                geometry _ p ++ nl ++
                "end" ++ nl ++
                nl ++ "basis" ++ nl ++
                "* library " ++ basis _ p ++ nl ++
                "end" ++ nl ++
                nl ++ "charge " ++ str_int (deck_charge _ p) ++ nl ++
                nl ++ "scf" ++ nl ++
                "thresh " ++ float_format_e1 (scf_thresh _ p) ++ nl ++
                "tol2e " ++ float_repr (scf_tol2e _ p) ++ nl.
Proof.
  unfold create_input_deck.
  destruct (resolve_active_el num_electrons p) as [w [E|e]]; cbn [returned bind];
    [| discriminate].
  rewrite format_deck. intros H.
  assert (deck = deck_head p ++ electron_lines (E / 2) (E / 2) ++ deck_tail p)
    as -> by congruence.
  eexists. eexists. split; [| reflexivity].
  unfold deck_head. rewrite !append_assoc. cbn [append nl chr].
  rewrite ?append_assoc. reflexivity.
Qed.

Lemma nopen_line_witness :
  exists before after,
    deck_head (sample_params None (Some 7)) ++ electron_lines 3 3
    ++ deck_tail (sample_params None (Some 7))
    = before
      ++ (rhf _ (sample_params None (Some 7)) ++ nl ++ spin _ (sample_params None (Some 7))
          ++ nl
          ++ match nopen _ (sample_params None (Some 7)) with
             | Some k => "nopen " ++ str_int k
             | None => ""
             end ++ nl
          ++ "end" ++ nl ++ nl ++ "tce" ++ nl)
      ++ after
    /\ before = nl ++ "start " ++ (mol_name _ (sample_params None (Some 7)) ++ "_test") ++ nl ++
                nl ++ "echo" ++ nl ++
                memory _ (sample_params None (Some 7)) ++ nl ++
                nl ++ "geometry units " ++ geometry_units _ (sample_params None (Some 7)) ++ nl ++
                "symmetry c1" ++ nl ++
                geometry _ (sample_params None (Some 7)) ++ nl ++
                "end" ++ nl ++
                nl ++ "basis" ++ nl ++
                "* library " ++ basis _ (sample_params None (Some 7)) ++ nl ++
                "end" ++ nl ++
                nl ++ "charge " ++ str_int (deck_charge _ (sample_params None (Some 7))) ++ nl ++
                nl ++ "scf" ++ nl ++
                "thresh " ++ float_format_e1 (scf_thresh _ (sample_params None (Some 7))) ++ nl ++
                "tol2e " ++ float_repr (scf_tol2e _ (sample_params None (Some 7))) ++ nl.
Proof.
  apply (nopen_line ten_electrons (sample_params None (Some 7))).
  vm_compute. reflexivity.
Defined.

(** ** [Element.from_tuple] *)


